(** * Large File Translator backend: upload assembly, job registry, text
      splitter, translation pipeline and job runner.

    A shallow embedding of [ui/backend/app] ([translator.py], [readers.py],
    [jobs.py], [process.py], [main.py], [word.py]) together with the properties of the
    design document that can be settled on it.

    Conventions of the embedding:
    - a Python [str] is a [string]; characters are their 8-bit codes;
    - a Python [int] is a [Z]; the floats of the progress report are
      rationals ([Q]): every float that occurs is a correctly rounded
      quotient of two small integers or a short decimal literal, and rounding
      is monotone, so order comparisons agree;
    - a raised exception is a value of [Py.exn]; a computation that may raise
      returns a [Py.result];
    - a loop whose termination depends on its arguments runs on an iteration
      budget and answers [None] when the budget is used up. *)

From Stdlib Require Import ZArith QArith Lqa Ascii String.
From stdpp Require Import base strings list gmap pretty.

Local Open Scope Z_scope.

(* ===================================================================== *)
(** * Python primitives used by the backend                               *)
(* ===================================================================== *)

Module Py.

(** Exceptions.  [UnicodeDecodeError] is singled out because
    [readers.extract_text] catches it; every exception carries the text
    that [traceback.format_exc()] renders for it. *)
Inductive exn : Type :=
| UnicodeDecodeError (tb : string)
| Exception (tb : string).

Definition format_exc (e : exn) : string :=
  match e with
  | UnicodeDecodeError tb => tb
  | Exception tb => tb
  end.

(** How a call ends: it returns, it raises, or it never returns. *)
Inductive result (A : Type) : Type :=
| Ok (a : A)
| Raise (e : exn)
| Hang.
Arguments Ok {A} a.
Arguments Raise {A} e.
Arguments Hang {A}.

(** [len(s)] *)
Definition len (s : string) : Z := Z.of_nat (String.length s).

Fixpoint take (n : nat) (s : string) : string :=
  match n, s with
  | S k, String c r => String c (take k r)
  | _, _ => EmptyString
  end.

Fixpoint drop (n : nat) (s : string) : string :=
  match n, s with
  | S k, String _ r => drop k r
  | _, _ => s
  end.

(** Normalisation of a slice bound against a length [n]: a negative
    bound counts from the end, and the result is clamped to [0..n]. *)
Definition adjust (n i : Z) : Z :=
  if i <? 0 then Z.max 0 (i + n) else Z.min i n.

(** [s[a:b]] *)
Definition slice (s : string) (a b : Z) : string :=
  let n := len s in
  let a' := adjust n a in
  let b' := adjust n b in
  take (Z.to_nat (b' - a')) (drop (Z.to_nat a') s).

Fixpoint is_prefix (p s : string) : bool :=
  match p, s with
  | EmptyString, _ => true
  | String a p', String b s' => if Ascii.eqb a b then is_prefix p' s' else false
  | String _ _, EmptyString => false
  end.

(** does [sub] occur in [s] at offset [i]? *)
Definition occurs_at (sub s : string) (i : nat) : bool :=
  is_prefix sub (drop i s).

(** The candidates [lo + cnt - 1], ..., [lo + 1], [lo], highest first. *)
Fixpoint rfind_down (sub s : string) (lo : Z) (cnt : nat) : Z :=
  match cnt with
  | O => -1
  | S k =>
      let i := lo + Z.of_nat k in
      if occurs_at sub s (Z.to_nat i) then i else rfind_down sub s lo k
  end.

(** [s.rfind(sub, a, b)] for a non-empty [sub]: the highest index [i]
    with [s[i:i+len(sub)] == sub] and the occurrence wholly inside
    [s[a:b]]; [-1] when there is none.  The bounds are normalised as
    CPython does for the search methods. *)
Definition rfind (s sub : string) (a b : Z) : Z :=
  let n := len s in
  let b' := if b >? n then n else if b <? 0 then Z.max 0 (b + n) else b in
  let a' := if a <? 0 then Z.max 0 (a + n) else a in
  rfind_down sub s a' (Z.to_nat (b' - a' - len sub + 1)).

(** [sep.join(parts)] *)
Fixpoint join (sep : string) (parts : list string) : string :=
  match parts with
  | [] => EmptyString
  | [p] => p
  | p :: rest => p +:+ sep +:+ join sep rest
  end.

(** [''.join(parts)] *)
Definition concat (parts : list string) : string :=
  foldr String.append EmptyString parts.

(** [range(n)] *)
Definition range (n : Z) : list Z := seqZ 0 n.

(** The components of a POSIX path: the pieces between separators. *)
Fixpoint components (cur s : string) : list string :=
  match s with
  | EmptyString => [cur]
  | String c r =>
      if Ascii.eqb c "/"%char then cur :: components EmptyString r
      else components (cur +:+ String c EmptyString) r
  end.

(** [Path(p).name]: the last component that is neither empty nor a
    single dot, the empty string when there is none. *)
Definition path_name (p : string) : string :=
  List.last
    (List.filter (fun c => negb (String.eqb c EmptyString || String.eqb c "."))
                 (components EmptyString p))
    EmptyString.

End Py.

(* ===================================================================== *)
(** * translator.py: the text splitter                                    *)
(* ===================================================================== *)

Module Translator.
Import Py.

Definition newline : string := String "010"%char EmptyString.
Definition period_space : string := ". ".

(** [int(max_chars * 0.5)].  The product is taken as exact, which it is
    in binary64 for [|max_chars| <= 2^53], far above the length a [str] can
    have, and [int] truncates toward zero.  (From [2^1024] on Python refuses
    to convert [max_chars] to a float; such sizes are outside the
    embedding.)  The proofs about the reassembly and the size of the chunks
    do not unfold this definition. *)
Definition int_half (max_chars : Z) : Z := Z.quot max_chars 2.

(** Lines 16-18: the candidate cut of the window [start..end_). *)
Definition find_cut (text : string) (start end_ : Z) : Z :=
  let cut := rfind text newline start end_ in
  if cut =? -1 then rfind text period_space start end_ else cut.

(** Lines 14-20: where the chunk that begins at [start] ends. *)
Definition window_end (text : string) (max_chars start : Z) : Z :=
  let n := len text in
  let end_ := Z.min n (start + max_chars) in
  let cut := find_cut text start end_ in
  if negb (cut =? -1) && (cut >? start + int_half max_chars)
  then cut + 1
  else end_.

(** Lines 13-22: the [while start < n] loop on an iteration budget. *)
Fixpoint split_loop (fuel : nat) (text : string) (max_chars start : Z)
         (chunks : list string) : option (list string) :=
  match fuel with
  | O => None
  | S fuel' =>
      if start <? len text then
        let end_ := window_end text max_chars start in
        split_loop fuel' text max_chars end_
                   (chunks ++ [slice text start end_])
      else Some chunks
  end.

(** [_split_text(text, max_chars)].  Every iteration with
    [max_chars >= 1] advances [start] by at least one character, so
    [len(text)] iterations and the final test fit the budget
    ([SplitterFacts.split_loop_spec]); with [max_chars <= 0] and a non-empty
    text no budget is enough, the Python loop never leaves
    ([SplitterFacts.split_loop_never_returns]). *)
Definition _split_text (text : string) (max_chars : Z) : option (list string) :=
  split_loop (S (String.length text)) text max_chars 0 [].

End Translator.

(* ===================================================================== *)
(** * jobs.py: the job registry                                           *)
(* ===================================================================== *)

Module Jobs.

(** The values the backend stores in the attributes of a job. *)
Inductive value : Type :=
| VNone
| VStr (s : string)
| VFloat (q : Q).

Definition of_optional (o : option string) : value :=
  match o with
  | Some s => VStr s
  | None => VNone
  end.

(** A [Job] object is its instance dictionary: attribute name to value.
    Names that resolve through the class only (methods, dunder names) are
    outside the embedding. *)
Abbreviation Job := (gmap string value).

(** [Job(job_id=..., status=..., ...)] *)
Definition mk_job (job_id status : string) (progress : Q)
           (message file_path : string) (source_lang : option string)
           (target_lang : string) (output_path : option string) : Job :=
  <["job_id" := VStr job_id]>
  (<["status" := VStr status]>
  (<["progress" := VFloat progress]>
  (<["message" := VStr message]>
  (<["file_path" := VStr file_path]>
  (<["source_lang" := of_optional source_lang]>
  (<["target_lang" := VStr target_lang]>
  (<["output_path" := of_optional output_path]> ∅))))))).

(** [JobStore]: the job map and the output directory.  Every method
    holds [_lock] for the whole of its access to [_jobs], so each method
    is one atomic step on the store. *)
Record JobStore : Type := {
  _jobs : gmap string Job;
  output_dir : string
}.

(** [JobStore.create]; [job_id] is the fresh [uuid.uuid4().hex]. *)
Definition create (job_id : string) (file_path target_lang : string)
           (source_lang : option string) (s : JobStore) : string * JobStore :=
  let job := mk_job job_id "queued" 0 "Queued" file_path source_lang
                    target_lang None in
  (job_id, {| _jobs := <[job_id := job]> (_jobs s);
              output_dir := output_dir s |}).

(** [JobStore.get]: [asdict(job)] is a fresh dictionary with the fields
    of the job, a snapshot that later updates do not reach. *)
Definition get (job_id : string) (s : JobStore) : option Job :=
  _jobs s !! job_id.

Definition hasattr (job : Job) (k : string) : bool :=
  bool_decide (is_Some (job !! k)).

Definition setattr (job : Job) (k : string) (v : value) : Job :=
  <[k := v]> job.

(** Lines 52-54: the loop over [kwargs.items()], in order. *)
Definition update_fields (kwargs : list (string * value)) (job : Job) : Job :=
  foldl (fun j kv => if hasattr j kv.1 then setattr j kv.1 kv.2 else j)
        job kwargs.

(** [JobStore.update(job_id, **kwargs)]; the job object is mutated in
    place, here the map entry is replaced by the mutated object. *)
Definition update (job_id : string) (kwargs : list (string * value))
           (s : JobStore) : JobStore :=
  match _jobs s !! job_id with
  | None => s
  | Some job =>
      {| _jobs := <[job_id := update_fields kwargs job]> (_jobs s);
         output_dir := output_dir s |}
  end.

(** The value that [kwargs] names for [k]: its last binding. *)
Fixpoint named (k : string) (kwargs : list (string * value)) : option value :=
  match kwargs with
  | [] => None
  | kv :: rest =>
      match named k rest with
      | Some later => Some later
      | None => if String.eqb kv.1 k then Some kv.2 else None
      end
  end.

(** [JobStore.output_path_for] *)
Definition output_path_for (job_id : string) (s : JobStore) : string :=
  output_dir s +:+ "/" +:+ job_id +:+ ".docx".

End Jobs.

(* ===================================================================== *)
(** * Execution model: the store, the trace and the outcomes of a run     *)
(* ===================================================================== *)

Module Exec.
Import Jobs.

(** What a run does that is visible from outside, in order: every
    registry update with what [get] answers right after it, every call
    of a translation function, every document written. *)
Inductive event : Type :=
| EvUpdate (job_id : string) (snapshot : option Job)
| EvTranslate (chunk : string)
| EvWrite (text path : string).

Record state : Type := {
  store : JobStore;
  log : list event
}.

(** A run: a state transformer that ends as a [Py.result]; what was
    done before an exception stays done. *)
Definition M (A : Type) : Type := state -> Py.result A * state.

Definition ret {A} (a : A) : M A := fun st => (Py.Ok a, st).

Definition bind {A B} (c : M A) (k : A -> M B) : M B :=
  fun st =>
    match c st with
    | (Py.Ok a, st') => k a st'
    | (Py.Raise e, st') => (Py.Raise e, st')
    | (Py.Hang, st') => (Py.Hang, st')
    end.

Definition raise {A} (e : Py.exn) : M A := fun st => (Py.Raise e, st).

(** [try: body except Exception: handler] *)
Definition try_except {A} (body : M A) (handler : Py.exn -> M A) : M A :=
  fun st =>
    match body st with
    | (Py.Raise e, st') => handler e st'
    | r => r
    end.

(** The result of a call that leaves the state alone. *)
Definition lift {A} (r : Py.result A) : M A := fun st => (r, st).

Definition emit (ev : event) : M unit :=
  fun st => (Py.Ok tt, {| store := store st; log := log st ++ [ev] |}).

(** [job_store.get(job_id)] *)
Definition get (job_id : string) : M (option Job) :=
  fun st => (Py.Ok (Jobs.get job_id (store st)), st).

(** [job_store.update(job_id, **kwargs)] *)
Definition update (job_id : string) (kwargs : list (string * value)) : M unit :=
  fun st =>
    let s' := Jobs.update job_id kwargs (store st) in
    (Py.Ok tt,
     {| store := s';
        log := log st ++ [EvUpdate job_id (Jobs.get job_id s')] |}).

(** [job_store.output_path_for(job_id)] *)
Definition output_path_for (job_id : string) : M string :=
  fun st => (Py.Ok (Jobs.output_path_for job_id (store st)), st).

End Exec.

Declare Scope run_scope.
Delimit Scope run_scope with run.
Notation "x <- c1 ;; c2" := (Exec.bind c1 (fun x => c2))
  (at level 100, c1 at next level, right associativity) : run_scope.
Notation "c1 ;;; c2" := (Exec.bind c1 (fun _ => c2))
  (at level 100, right associativity) : run_scope.

(* ===================================================================== *)
(** * readers.py: text extraction                                         *)
(* ===================================================================== *)

Module Readers.
Import Py.

Definition dot : ascii := "."%char.

(** [Path(p).suffix]: the name from its last dot on, unless that dot is
    the first or the last character of the name. *)
Definition suffix (p : string) : string :=
  let name := path_name p in
  let i := rfind name (String dot EmptyString) 0 (len name) in
  if (0 <? i) && (i <? len name - 1) then slice name i (len name)
  else EmptyString.

(** [c.lower()] on an 8-bit character: the letters A-Z and the
    capitals of the upper half other than the multiplication sign. *)
Definition lower_char (c : ascii) : ascii :=
  let n := N_of_ascii c in
  if ((65 <=? n) && (n <=? 90))%N then ascii_of_N (n + 32)
  else if ((192 <=? n) && (n <=? 222) && negb (n =? 215))%N
       then ascii_of_N (n + 32)
       else c.

Fixpoint lower (s : string) : string :=
  match s with
  | EmptyString => EmptyString
  | String c r => String (lower_char c) (lower r)
  end.

(** A document as [python-docx] presents it: the paragraph texts, and
    for each table its rows of cell texts. *)
Record Docx : Type := {
  paragraphs : list string;
  tables : list (list (list string))
}.

(** The files the extractor can be asked to read. *)
Record Files : Type := {
  read_text_utf8 : string -> result string;
  read_text_cp949_replace : string -> result string;
  Document : string -> result Docx
}.

Definition tab : string := String "009"%char EmptyString.
Definition text_suffixes : list string := [".txt"; ".md"; ".csv"; ".srt"; ".log"].

Definition unsupported_message (ext : string) : string :=
  "[Unsupported file type: " +:+ ext +:+ ". Please upload a .txt or .docx file.]".

(** [extract_text(file_path)] *)
Definition extract_text (fs : Files) (file_path : string) : result string :=
  let ext := lower (suffix file_path) in
  if bool_decide (ext ∈ text_suffixes) then
    match read_text_utf8 fs file_path with
    | Raise (UnicodeDecodeError _) => read_text_cp949_replace fs file_path
    | r => r
    end
  else if String.eqb ext ".docx" then
    match Document fs file_path with
    | Raise e => Raise e
    | Hang => Hang
    | Ok doc =>
        let parts :=
          paragraphs doc ++
          flat_map (fun table => map (fun row => join tab row) table)
                   (tables doc) in
        Ok (join (String "010"%char EmptyString) parts)
    end
  else
    (* Unsupported: return a helpful message *)
    Ok (unsupported_message ext).

End Readers.

(* ===================================================================== *)
(** * translator.py: the pipeline                                         *)
(* ===================================================================== *)

Module Pipeline.
Import Py Jobs Exec Translator.
Local Open Scope run_scope.

(** What the pipeline finds around it: the files, the environment
    variables and the two functions it does not own. *)
Record Env : Type := {
  files : Readers.Files;
  (** [int(os.environ['CHUNK_CHARS'])] when the variable is set *)
  CHUNK_CHARS : option (result Z);
  OPENAI_API_KEY : option string;
  (** [_translate_with_openai], the remote call; the first argument
      counts the calls made before this one in the run *)
  _translate_with_openai : nat -> string -> option string -> string -> result string;
  (** [word.write_docx] *)
  write_docx : string -> string -> result unit
}.

(** [_translate_fallback(chunk, source_lang, target_lang)] *)
Definition _translate_fallback (chunk : string) (source_lang : option string)
           (target_lang : string) : string :=
  let header := "[Translation disabled: set OPENAI_API_KEY to translate to "
                +:+ target_lang +:+ "]" +:+ newline +:+ newline in
  header +:+ chunk.

(** [int(os.environ.get('CHUNK_CHARS', '8000'))] *)
Definition max_chars (env : Env) : result Z :=
  match CHUNK_CHARS env with
  | None => Ok 8000
  | Some r => r
  end.

(** [bool(os.environ.get('OPENAI_API_KEY'))] *)
Definition use_openai (env : Env) : bool :=
  match OPENAI_API_KEY env with
  | None => false
  | Some k => negb (String.eqb k EmptyString)
  end.

(** [i / total] *)
Definition fraction (i total : nat) : Q :=
  (inject_Z (Z.of_nat i) / inject_Z (Z.of_nat total))%Q.

Definition chunk_message (i total : nat) : string :=
  "Translating chunk " +:+ pretty (i + 1)%nat +:+ "/" +:+ pretty total.

Definition report (progress_cb : option (Q -> string -> M unit))
           (p : Q) (msg : string) : M unit :=
  match progress_cb with
  | Some cb => cb p msg
  | None => ret tt
  end.

(** Lines 75-83: [for i, chunk in enumerate(chunks)], entered at index
    [i] with the parts translated so far. *)
Fixpoint translate_chunks (env : Env) (source_lang : option string)
         (target_lang : string) (total : nat)
         (progress_cb : option (Q -> string -> M unit))
         (i : nat) (chunks : list string) (translated_parts : list string)
  : M (list string) :=
  match chunks with
  | [] => ret translated_parts
  | chunk :: rest =>
      report progress_cb (fraction i total) (chunk_message i total) ;;;
      emit (EvTranslate chunk) ;;;
      out <- (if use_openai env
              then lift (_translate_with_openai env i chunk source_lang target_lang)
              else ret (_translate_fallback chunk source_lang target_lang)) ;;
      translate_chunks env source_lang target_lang total progress_cb
                       (S i) rest (translated_parts ++ [out])
  end.

(** [translate_file_to_docx] *)
Definition translate_file_to_docx (env : Env) (file_path : string)
           (source_lang : option string) (target_lang : string)
           (out_docx : string)
           (progress_cb : option (Q -> string -> M unit)) : M unit :=
  text <- lift (Readers.extract_text (files env) file_path) ;;
  m <- lift (max_chars env) ;;
  match _split_text text m with
  | None => lift Hang
  | Some chunks =>
      let total := Nat.max 1 (length chunks) in
      translated_parts <-
        translate_chunks env source_lang target_lang total progress_cb
                         0 chunks [] ;;
      let full := join newline translated_parts in
      report progress_cb (95 # 100)%Q "Writing Word document" ;;;
      emit (EvWrite full out_docx) ;;;
      lift (write_docx env full out_docx) ;;;
      report progress_cb 1%Q "Done"
  end.

End Pipeline.

(* ===================================================================== *)
(** * process.py: the job runner                                          *)
(* ===================================================================== *)

Module Process.
Import Py Jobs Exec Pipeline.
Local Open Scope run_scope.

(** [min(a, b)] and [max(a, b)] of two floats *)
Definition py_min (a b : Q) : Q := if Qle_bool a b then a else b.
Definition py_max (a b : Q) : Q := if Qle_bool b a then a else b.

(** [on_progress], the closure handed to the pipeline *)
Definition on_progress (job_id : string) (p : Q) (msg : string) : M unit :=
  update job_id [("progress", VFloat (py_max 0 (py_min 1 p)));
                 ("message", VStr msg)].

(** [Path(job['file_path'])] and [job['target_lang']]: a missing key is
    a [KeyError]; the pipeline takes a [str] in both places. *)
Definition item_str (job : Job) (k : string) : M string :=
  match job !! k with
  | Some (VStr s) => ret s
  | Some _ => raise (Exception "TypeError")
  | None => raise (Exception "KeyError")
  end.

(** [job.get('source_lang')], an optional [str] *)
Definition get_optional_str (job : Job) (k : string) : M (option string) :=
  match job !! k with
  | Some (VStr s) => ret (Some s)
  | Some VNone | None => ret None
  | Some _ => raise (Exception "TypeError")
  end.

(** The body of the thread that [start_translation_job] starts. *)
Definition run (env : Env) (job_id : string) : M unit :=
  job <- get job_id ;;
  match job with
  | None => ret tt
  | Some job =>
      if bool_decide (job = ∅) then ret tt
      else
        try_except
          (update job_id [("status", VStr "running");
                          ("progress", VFloat (1 # 100));
                          ("message", VStr "Starting")] ;;;
           out_path <- output_path_for job_id ;;
           file_path <- item_str job "file_path" ;;
           source_lang <- get_optional_str job "source_lang" ;;
           target_lang <- item_str job "target_lang" ;;
           translate_file_to_docx env file_path source_lang target_lang
                                  out_path (Some (on_progress job_id)) ;;;
           update job_id [("status", VStr "done");
                          ("progress", VFloat 1);
                          ("message", VStr "Done");
                          ("output_path", VStr out_path)])
          (fun e =>
             update job_id [("status", VStr "error");
                            ("message", VStr (format_exc e));
                            ("progress", VFloat 1)])
  end.

End Process.

(* ===================================================================== *)
(** * main.py: chunked upload                                             *)
(* ===================================================================== *)

Module Main.
Import Py.

(** The part of the file system the upload endpoints touch: below
    [CHUNK_DIR] one directory per upload id, each a map from file name to
    content; below [UPLOAD_DIR] the assembled files.  A content is a
    byte string. *)
Record FS : Type := {
  chunk_dirs : gmap string (gmap string string);
  upload_files : gmap string string
}.

(** How an endpoint ends: with its JSON body, with an [HTTPException],
    or with another exception (a 500 for the client). *)
Inductive response (A : Type) : Type :=
| Return (a : A)
| HTTPException (status_code : Z) (detail : string)
| Error (e : exn).
Arguments Return {A} a.
Arguments HTTPException {A} status_code detail.
Arguments Error {A} e.

Fixpoint zeros (n : nat) : string :=
  match n with
  | O => EmptyString
  | S k => String "0"%char (zeros k)
  end.

(** Digits padded with zeros on the left up to [width]. *)
Definition zfill (width : nat) (digits : string) : string :=
  zeros (width - String.length digits) +:+ digits.

(** [f'{i:08d}']: the sign counts in the width. *)
Definition format_08d (i : Z) : string :=
  if i <? 0 then "-" +:+ zfill 7 (pretty (Z.abs_N i))
  else zfill 8 (pretty (Z.to_N i)).

(** [f'{index:08d}.part'] *)
Definition part_name (index : Z) : string := format_08d index +:+ ".part".

Definition meta_name : string := "meta.txt".

(** The characters [str.strip()] removes, among the 8-bit ones. *)
Definition is_space (c : ascii) : bool :=
  let n := N_of_ascii c in
  ((9 <=? n) && (n <=? 13) || (28 <=? n) && (n <=? 32)
   || (n =? 133) || (n =? 160))%N.

Fixpoint lstrip (s : string) : string :=
  match s with
  | String c r => if is_space c then lstrip r else s
  | EmptyString => EmptyString
  end.

Fixpoint rstrip (s : string) : string :=
  match s with
  | String c r =>
      match rstrip r with
      | EmptyString => if is_space c then EmptyString else String c EmptyString
      | r' => String c r'
      end
  | EmptyString => EmptyString
  end.

Definition strip (s : string) : string := rstrip (lstrip s).

(** Lines 76-78: the name of the assembled file below [UPLOAD_DIR]. *)
Definition final_name (upload_id meta : string) : string :=
  let filename :=
    match strip meta with
    | EmptyString => upload_id +:+ ".bin"
    | stripped => stripped
    end in
  let safe_name := path_name filename in
  upload_id +:+ "_" +:+ safe_name.

(** [upload_init]; [upload_id] is the fresh [uuid.uuid4().hex]. *)
Definition upload_init (upload_id filename : string) (fs : FS)
  : response string * FS :=
  let up_dir := default ∅ (chunk_dirs fs !! upload_id) in
  (Return upload_id,
   {| chunk_dirs := <[upload_id := <[meta_name := filename]> up_dir]> (chunk_dirs fs);
      upload_files := upload_files fs |}).

(** [upload_chunk]: the part file is opened for writing, which empties
    it, and the payload is copied into it block by block. *)
Definition upload_chunk (upload_id : string) (index : Z) (chunk : string)
           (fs : FS) : response unit * FS :=
  match chunk_dirs fs !! upload_id with
  | None => (HTTPException 404 "upload_id not found", fs)
  | Some up_dir =>
      (Return tt,
       {| chunk_dirs :=
            <[upload_id := <[part_name index := chunk]> up_dir]> (chunk_dirs fs);
          upload_files := upload_files fs |})
  end.

(** Lines 81-86: the loop over [range(total_chunks)] with the content
    written to [out] so far.  [fault i = Some k] says that copying part
    [i] raises after [k] of its bytes were written. *)
Fixpoint copy_parts (fault : Z -> option nat) (up_dir : gmap string string)
         (indices : list Z) (out : string) : response unit * string :=
  match indices with
  | [] => (Return tt, out)
  | i :: rest =>
      match up_dir !! part_name i with
      | None => (HTTPException 400 ("missing chunk " +:+ pretty i), out)
      | Some data =>
          match fault i with
          | Some k => (Error (Exception "OSError"), out +:+ take k data)
          | None => copy_parts fault up_dir rest (out +:+ data)
          end
      end
  end.

(** [upload_complete] under a given behaviour of the copies.  The output
    file exists with what was written to it however the loop ends;
    [shutil.rmtree] is reached only when the loop ends normally. *)
Definition upload_complete_io (fault : Z -> option nat)
           (upload_id : string) (total_chunks : Z) (fs : FS)
  : response (string * string) * FS :=
  match chunk_dirs fs !! upload_id with
  | None => (HTTPException 404 "upload_id not found", fs)
  | Some up_dir =>
      match up_dir !! meta_name with
      | None => (Error (Exception "FileNotFoundError"), fs)
      | Some meta =>
          let final_path := final_name upload_id meta in
          let '(r, out) := copy_parts fault up_dir (range total_chunks) EmptyString in
          let written := <[final_path := out]> (upload_files fs) in
          match r with
          | Return _ =>
              (Return (upload_id, final_path),
               {| chunk_dirs := delete upload_id (chunk_dirs fs);
                  upload_files := written |})
          | HTTPException code detail =>
              (HTTPException code detail,
               {| chunk_dirs := chunk_dirs fs; upload_files := written |})
          | Error e =>
              (Error e,
               {| chunk_dirs := chunk_dirs fs; upload_files := written |})
          end
      end
  end.

(** [upload_complete] when every copy goes through. *)
Definition upload_complete (upload_id : string) (total_chunks : Z) (fs : FS)
  : response (string * string) * FS :=
  upload_complete_io (fun _ => None) upload_id total_chunks fs.

(** The content of part [i] of an upload directory, empty when absent. *)
Definition part (up_dir : gmap string string) (i : Z) : string :=
  default EmptyString (up_dir !! part_name i).

(** The parts with the given indices, one after the other. *)
Definition parts (up_dir : gmap string string) (indices : list Z) : string :=
  concat (map (part up_dir) indices).

(** A client sending chunks, in the order of the list. *)
Definition receive_all (upload_id : string) (arrivals : list (Z * string))
           (fs : FS) : FS :=
  foldl (fun fs a => (upload_chunk upload_id a.1 a.2 fs).2) fs arrivals.

(** The payload of the last arrival with index [i]. *)
Fixpoint final_payload (arrivals : list (Z * string)) (i : Z) : option string :=
  match arrivals with
  | [] => None
  | a :: rest =>
      match final_payload rest i with
      | Some later => Some later
      | None => if Z.eqb a.1 i then Some a.2 else None
      end
  end.

(** Decimal digits as [pretty] prints them: at least one digit, and a
    leading zero only for zero itself. *)
Definition canonical (s : string) : Prop :=
  match s with
  | EmptyString => False
  | String c r => (c = "0"%char -> r = EmptyString) /\ c <> "-"%char
  end.

(** Part [i] is stored and its copy goes through. *)
Definition present (fault : Z -> option nat) (up_dir : gmap string string)
           (i : Z) : Prop :=
  is_Some (up_dir !! part_name i) /\ fault i = None.

End Main.

(* ===================================================================== *)
(** * The splitter: what a window and its cut are                         *)
(* ===================================================================== *)

Module SplitterSpec.
Import Py Translator.

(** [p] is the last place at which [sub] occurs wholly inside the
    window [lo..hi) of [text]. *)
Definition last_in_window (sub text : string) (lo hi p : Z) : Prop :=
  lo <= p /\ p + len sub <= hi /\
  occurs_at sub text (Z.to_nat p) = true /\
  forall q, p < q -> q + len sub <= hi ->
            occurs_at sub text (Z.to_nat q) = false.

(** [sub] does not occur wholly inside the window [lo..hi) of [text]. *)
Definition none_in_window (sub text : string) (lo hi : Z) : Prop :=
  forall q, lo <= q -> q + len sub <= hi ->
            occurs_at sub text (Z.to_nat q) = false.

(** The upper bound of the window that begins at [start]. *)
Definition window_limit (text : string) (max_chars start : Z) : Z :=
  Z.min (len text) (start + max_chars).

End SplitterSpec.

(* ===================================================================== *)
(** * A job as polling sees it                                            *)
(* ===================================================================== *)

Module RunSpec.
Import Py Jobs Exec Translator Pipeline Process.
Local Open Scope run_scope.

(** What a poll shows of a job: status, progress and message. *)
Record view : Type := {
  v_status : option value;
  v_progress : option value;
  v_message : option value
}.

Definition view_of (job : Job) : view :=
  {| v_status := job !! "status";
     v_progress := job !! "progress";
     v_message := job !! "message" |}.

(** The successive views of the job that the updates of a run leave in
    the registry; a poll between two updates sees the earlier one. *)
Definition trail (l : list event) : list view :=
  omap (fun ev => match ev with
                  | EvUpdate _ (Some job) => Some (view_of job)
                  | _ => None
                  end) l.

(** The chunks handed to a translation function, in order. *)
Definition translator_calls (l : list event) : list string :=
  omap (fun ev => match ev with EvTranslate c => Some c | _ => None end) l.

(** The documents handed to the writer, in order. *)
Definition documents (l : list event) : list (string * string) :=
  omap (fun ev => match ev with EvWrite t p => Some (t, p) | _ => None end) l.

Definition has_status (s : string) (v : view) : bool :=
  match v_status v with
  | Some (VStr s') => String.eqb s' s
  | _ => false
  end.

(** The views in which the job is ['running']. *)
Definition running_trail (l : list event) : list view :=
  List.filter (has_status "running") (trail l).

(** The progress of [b] is not below the progress of [a]. *)
Definition progress_le (a b : view) : Prop :=
  match v_progress a, v_progress b with
  | Some (VFloat p), Some (VFloat q) => (p <= q)%Q
  | _, _ => False
  end.

(** The progress of [b] is below the progress of [a]. *)
Definition progress_drops (a b : view) : Prop :=
  match v_progress a, v_progress b with
  | Some (VFloat p), Some (VFloat q) => (q < p)%Q
  | _, _ => False
  end.

(** [R] holds between every element of the list and its successor. *)
Fixpoint adjacent {A} (R : A -> A -> Prop) (l : list A) : Prop :=
  match l with
  | a :: rest =>
      match rest with
      | b :: _ => R a b /\ adjacent R rest
      | [] => True
      end
  | [] => True
  end.

(** The number of chunks the pipeline makes of a file, zero when it
    does not get as far as having chunks. *)
Definition chunk_count (env : Env) (file_path : string) : nat :=
  match Readers.extract_text (files env) file_path with
  | Ok text =>
      match max_chars env with
      | Ok m =>
          match Translator._split_text text m with
          | Some chunks => length chunks
          | None => O
          end
      | _ => O
      end
  | _ => O
  end.

(** [jobs_start], lines 102-103: the job is created, then its thread is
    started on the registry as [create] left it. *)
Definition started (job_id file_path target_lang : string)
           (source_lang : option string) (s : JobStore) : state :=
  {| store := (create job_id file_path target_lang source_lang s).2;
     log := [] |}.

(** A small world to run jobs in: every text file reads as [text], no
    file opens as a Word document, no API key is set, the remote call
    fails, the writer succeeds. *)
Definition sample_files (text : string) : Readers.Files :=
  {| Readers.read_text_utf8 := fun _ => Ok text;
     Readers.read_text_cp949_replace := fun _ => Ok text;
     Readers.Document := fun _ => Raise (Exception "PackageNotFoundError") |}.

Definition sample_env (text : string) (chunk_chars : option Z) : Env :=
  {| files := sample_files text;
     CHUNK_CHARS := Ok <$> chunk_chars;
     OPENAI_API_KEY := None;
     _translate_with_openai := fun _ _ _ _ => Raise (Exception "OpenAIError");
     write_docx := fun _ _ => Ok tt |}.

Definition sample_store : JobStore := {| _jobs := ∅; output_dir := "outputs" |}.

(** Every call of the remote translation returns. *)
Definition translation_succeeds (env : Env) : Prop :=
  forall i chunk source_lang target_lang,
    exists out, _translate_with_openai env i chunk source_lang target_lang = Ok out.

(** Every call of the document writer returns. *)
Definition writer_succeeds (env : Env) : Prop :=
  forall text path, write_docx env text path = Ok tt.

(** The state after [job_store.update(job_id, **kwargs)]. *)
Definition after_update (job_id : string) (kwargs : list (string * value))
           (st : state) : state :=
  {| store := Jobs.update job_id kwargs (store st);
     log := log st ++
            [EvUpdate job_id (Jobs.get job_id (Jobs.update job_id kwargs (store st)))] |}.

(** The state after an event was added to the trace. *)
Definition after_emit (ev : event) (st : state) : state :=
  {| store := store st; log := log st ++ [ev] |}.

(** A job that has the attributes the runner writes. *)
Definition tracked (job : Job) : Prop :=
  is_Some (job !! "status") /\ is_Some (job !! "progress") /\
  is_Some (job !! "message") /\ is_Some (job !! "output_path").

(** The registry holds [job] under [job_id]. *)
Definition job_at (st : state) (job_id : string) (job : Job) : Prop :=
  _jobs (store st) !! job_id = Some job.

(** The clamp of [on_progress]. *)
Definition clamp (p : Q) : Q := py_max 0 (py_min 1 p).

(** The view that [on_progress] leaves. *)
Definition progress_view (status : option value) (p : Q) (msg : string) : view :=
  {| v_status := status;
     v_progress := Some (VFloat (clamp p));
     v_message := Some (VStr msg) |}.

(** The view that the update for chunk [n] leaves. *)
Definition chunk_view (status : option value) (total n : nat) : view :=
  progress_view status (fraction n total) (chunk_message n total).

(** The chunks the pipeline makes of a file, none when it does not get as
    far as having chunks. *)
Definition chunks_of (env : Env) (file_path : string) : list string :=
  match Readers.extract_text (files env) file_path with
  | Ok text =>
      match max_chars env with
      | Ok m => default [] (_split_text text m)
      | _ => []
      end
  | _ => []
  end.

(** The view that the report before the writer leaves. *)
Definition writing_view (status : option value) : view :=
  progress_view status (95 # 100) "Writing Word document".

(** The view that the last report of the pipeline leaves. *)
Definition done_view (status : option value) : view :=
  progress_view status 1 "Done".

(** The view that the first update of the runner leaves. *)
Definition starting_view : view :=
  {| v_status := Some (VStr "running");
     v_progress := Some (VFloat (1 # 100));
     v_message := Some (VStr "Starting") |}.

(** The view that the update ending the job leaves. *)
Definition final_view (status message : string) : view :=
  {| v_status := Some (VStr status);
     v_progress := Some (VFloat 1);
     v_message := Some (VStr message) |}.

Definition running : option value := Some (VStr "running").

(** The body of [run] on a job made by [create]: the job is found, it is
    not empty, and its three items are strings as [create] stored them. *)
Definition run_body (env : Env) (job_id file_path target_lang : string)
           (source_lang : option string) : M unit :=
  update job_id [("status", VStr "running");
                 ("progress", VFloat (1 # 100));
                 ("message", VStr "Starting")] ;;;
  out_path <- output_path_for job_id ;;
  translate_file_to_docx env file_path source_lang target_lang
                         out_path (Some (on_progress job_id)) ;;;
  update job_id [("status", VStr "done");
                 ("progress", VFloat 1);
                 ("message", VStr "Done");
                 ("output_path", VStr out_path)].

(** The handler of [run]. *)
Definition run_handler (job_id : string) (e : exn) : M unit :=
  update job_id [("status", VStr "error");
                 ("message", VStr (format_exc e));
                 ("progress", VFloat 1)].

(** When progress may go down between a view and the next: right after the
    'Starting' view, and on entering the writing step of a text of more
    than [limit] chunks. *)
Definition step_ok (limit n : nat) (a b : view) : Prop :=
  v_message a = Some (VStr "Starting") \/
  (v_message b = Some (VStr "Writing Word document") /\ (limit < n)%nat) \/
  progress_le a b.

End RunSpec.

(* ===================================================================== *)
(** * word.py: the document writer                                        *)
(* ===================================================================== *)

Module Word.
Import Py.

(** The characters at which [str.splitlines()] breaks a line, among the
    8-bit ones: LF, VT, FF, CR, FS, GS, RS and NEL. *)
Definition is_linebreak (c : ascii) : bool :=
  let n := N_of_ascii c in
  ((10 <=? n) && (n <=? 13) || (28 <=? n) && (n <=? 30) || (n =? 133))%N.

Definition is_cr (c : ascii) : bool := (N_of_ascii c =? 13)%N.
Definition is_lf (c : ascii) : bool := (N_of_ascii c =? 10)%N.

(** [text.splitlines()] with the line read so far in [cur]: a line ends at
    a line break, which is dropped, a CR directly followed by LF counting
    as one break; what follows the last break is a line only if it is not
    empty. *)
Fixpoint splitlines_from (cur s : string) : list string :=
  match s with
  | EmptyString =>
      match cur with
      | EmptyString => []
      | _ => [cur]
      end
  | String c r =>
      if is_linebreak c then
        cur :: match r with
               | String d r2 =>
                   if is_cr c && is_lf d then splitlines_from EmptyString r2
                   else splitlines_from EmptyString r
               | EmptyString => splitlines_from EmptyString r
               end
      else splitlines_from (cur +:+ String c EmptyString) r
  end.

Definition splitlines (text : string) : list string :=
  splitlines_from EmptyString text.

(** [write_docx(text, out_path)], lines 7-10: the paragraphs added to the
    new document, in order, one per line of the text. *)
Definition paragraphs_written (text : string) : list string :=
  splitlines text.

End Word.

(* ===================================================================== *)
(** * main.py: the job endpoints                                          *)
(* ===================================================================== *)

Module Endpoints.
Import Py Jobs Main.

(** What [jobs_download] sends: the file at [path], offered under
    [filename]. *)
Record FileResponse : Type := {
  path : string;
  filename : string
}.

(** [jobs_get]: the snapshot of the job, or a 404; an empty dictionary
    is as false as [None]. *)
Definition jobs_get (job_id : string) (s : JobStore) : response Job :=
  match Jobs.get job_id s with
  | None => HTTPException 404 "job not found"
  | Some job =>
      if bool_decide (job = ∅) then HTTPException 404 "job not found"
      else Return job
  end.

(** [jobs_download]; [exists p] says whether there is a file at [p].  A
    path that went through [str(Path(...))] when it was stored is its own
    [str(Path(...))]. *)
Definition jobs_download (exists_ : string -> bool) (job_id : string)
           (s : JobStore) : response FileResponse :=
  match Jobs.get job_id s with
  | None => HTTPException 404 "job not found"
  | Some job =>
      if bool_decide (job = ∅) then HTTPException 404 "job not found"
      else
        match job !! "status" with
        | Some (VStr "done") =>
            match job !! "output_path" with
            | None => Error (Exception "KeyError")
            | Some (VStr out_path) =>
                if exists_ out_path
                then Return {| path := out_path; filename := path_name out_path |}
                else HTTPException 404 "output file missing"
            | Some _ => Error (Exception "TypeError")
            end
        | _ => HTTPException 400 "job not finished"
        end
  end.

End Endpoints.

(* ===================================================================== *)
(** * Notions used to state further properties                            *)
(* ===================================================================== *)

Module MoreSpec.
Import Py Jobs Exec Translator Pipeline Process RunSpec.




(** [sub] occurs nowhere in [text]. *)
Definition absent (sub text : string) : Prop :=
  forall i, occurs_at sub text i = false.


(** Does [c] occur in [s]? *)
Fixpoint contains (c : ascii) (s : string) : bool :=
  match s with
  | EmptyString => false
  | String d r => Ascii.eqb d c || contains c r
  end.

(** A string that names one directory entry: no separator in it, and
    neither empty nor one of the dot names. *)
Definition entry_name (s : string) : Prop :=
  contains "/"%char s = false /\ s <> EmptyString /\ s <> "." /\ s <> "..".

(** The attributes of a job that the runner writes. *)
Definition runner_fields : list string :=
  ["status"; "progress"; "message"; "output_path"].

(** Two states of one registry entry that differ at most in the values
    of the attributes the runner writes. *)
Definition same_job (a b : option Job) : Prop :=
  match a, b with
  | None, None => True
  | Some ja, Some jb =>
      dom jb = dom ja /\ forall k, k ∉ runner_fields -> jb !! k = ja !! k
  | _, _ => False
  end.

(** What the run of [job_id] may have done to the registry between two
    states. *)
Definition frame (job_id : string) (st st' : state) : Prop :=
  output_dir (store st') = output_dir (store st) /\
  (forall other, other <> job_id ->
     _jobs (store st') !! other = _jobs (store st) !! other) /\
  same_job (_jobs (store st) !! job_id) (_jobs (store st') !! job_id).

Definition framed {A} (job_id : string) (c : M A) : Prop :=
  forall st, frame job_id st (c st).2.

(** Lines 79-82: the answer of the translation function in use to the
    call for chunk number [i]. *)
Definition translate (env : Env) (i : nat) (chunk : string)
           (source_lang : option string) (target_lang : string) : result string :=
  if use_openai env then _translate_with_openai env i chunk source_lang target_lang
  else Ok (_translate_fallback chunk source_lang target_lang).

(** The calls for [chunks], numbered from [i], return [outs]. *)
Fixpoint translated (env : Env) (source_lang : option string) (target_lang : string)
         (i : nat) (chunks outs : list string) : Prop :=
  match chunks, outs with
  | [], [] => True
  | chunk :: chunks', out :: outs' =>
      translate env i chunk source_lang target_lang = Ok out /\
      translated env source_lang target_lang (S i) chunks' outs'
  | _, _ => False
  end.

(** A state in the middle of the run of a tracked job: the status and the
    output path the registry has for it, the chunks handed to a translation
    function and the documents handed to the writer so far. *)
Definition at_work (st : state) (job_id : string) (status output_path : value)
           (calls : list string) (docs : list (string * string)) : Prop :=
  (exists job, job_at st job_id job /\ tracked job /\
               job !! "status" = Some status /\
               job !! "output_path" = Some output_path) /\
  translator_calls (log st) = calls /\ documents (log st) = docs.

Definition starting : list (string * value) :=
  [("status", VStr "running"); ("progress", VFloat (1 # 100));
   ("message", VStr "Starting")].

Definition finishing (out_path : string) : list (string * value) :=
  [("status", VStr "done"); ("progress", VFloat 1); ("message", VStr "Done");
   ("output_path", VStr out_path)].

Definition failing (e : exn) : list (string * value) :=
  [("status", VStr "error"); ("message", VStr (format_exc e));
   ("progress", VFloat 1)].

(** A view whose progress is a fraction between 0 and 1. *)
Definition progress_in_range (v : view) : Prop :=
  exists q, v_progress v = Some (VFloat q) /\ (0 <= q <= 1)%Q.

(** A line of text: a string without any of the characters at which
    [splitlines] breaks. *)
Fixpoint is_line (s : string) : bool :=
  match s with
  | EmptyString => true
  | String c r => negb (Word.is_linebreak c) && is_line r
  end.

(** A world with an API key: every text file reads as [text], the remote
    call answers the first [good] calls of a run with the chunk between
    brackets and fails afterwards, the writer answers [written]. *)
Definition remote_env (text : string) (chunk_chars : option Z) (good : nat)
           (written : result unit) : Env :=
  {| files := sample_files text;
     CHUNK_CHARS := Ok <$> chunk_chars;
     OPENAI_API_KEY := Some "key";
     _translate_with_openai :=
       fun i chunk _ _ =>
         if (i <? good)%nat then Ok ("<" +:+ chunk +:+ ">")
         else Raise (Exception "OpenAIError");
     write_docx := fun _ _ => written |}.

End MoreSpec.

(* ===================================================================== *)
(** * Facts about the Python primitives                                   *)
(* ===================================================================== *)

Module PyFacts.
Import Py.

Lemma take_drop n s : take n s +:+ drop n s = s.
Proof.
  revert s; induction n as [|n IH]; intros [|c r]; simpl; try reflexivity.
  unfold String.app in *. simpl. now rewrite IH.
Qed.

Lemma length_take n s : String.length (take n s) = Nat.min n (String.length s).
Proof.
  revert s; induction n as [|n IH]; intros [|c r]; simpl; try reflexivity.
  now rewrite IH.
Qed.

Lemma length_drop n s : String.length (drop n s) = (String.length s - n)%nat.
Proof.
  revert s; induction n as [|n IH]; intros [|c r]; simpl; try reflexivity.
  apply IH.
Qed.

Lemma drop_drop n m s : drop n (drop m s) = drop (m + n) s.
Proof.
  revert s; induction m as [|m IH]; intros s; simpl; [reflexivity|].
  destruct s as [|c r]; [now destruct n|]. apply IH.
Qed.

Lemma str_app_nil_r s : s +:+ EmptyString = s.
Proof. induction s as [|c r IH]; [reflexivity|]. unfold String.app in *. simpl. now rewrite IH. Qed.

Lemma str_app_assoc s t u : (s +:+ t) +:+ u = s +:+ (t +:+ u).
Proof. induction s as [|c r IH]; [reflexivity|]. unfold String.app in *. simpl. now rewrite IH. Qed.

Lemma adjust_id n i : 0 <= i <= n -> adjust n i = i.
Proof. intros H. unfold adjust. destruct (Z.ltb_spec i 0); lia. Qed.

(** A slice with bounds in range is a [take] of a [drop]. *)
Lemma slice_in_range s a b :
  0 <= a <= b -> b <= len s ->
  slice s a b = take (Z.to_nat (b - a)) (drop (Z.to_nat a) s).
Proof.
  intros Ha Hb. unfold slice. rewrite !adjust_id by lia. reflexivity.
Qed.

Lemma length_slice s a b :
  0 <= a <= b -> b <= len s -> len (slice s a b) = b - a.
Proof.
  intros Ha Hb. rewrite slice_in_range by assumption. unfold len in *.
  rewrite length_take, length_drop. lia.
Qed.

(** What [rfind_down] answers: [-1], or a candidate at which [sub] occurs. *)
Lemma rfind_down_range sub s lo cnt :
  rfind_down sub s lo cnt = -1 \/
  (lo <= rfind_down sub s lo cnt < lo + Z.of_nat cnt /\
   occurs_at sub s (Z.to_nat (rfind_down sub s lo cnt)) = true).
Proof.
  induction cnt as [|k IH]; simpl; [now left|].
  destruct (occurs_at sub s (Z.to_nat (lo + Z.of_nat k))) eqn:E.
  - right. split; [lia|exact E].
  - destruct IH as [IH|[IH1 IH2]]; [now left|right]. split; [lia|exact IH2].
Qed.

(** No occurrence above the answer. *)
Lemma rfind_down_last sub s lo cnt j :
  rfind_down sub s lo cnt < j < lo + Z.of_nat cnt -> lo <= j ->
  occurs_at sub s (Z.to_nat j) = false.
Proof.
  induction cnt as [|k IH]; simpl; [lia|].
  destruct (occurs_at sub s (Z.to_nat (lo + Z.of_nat k))) eqn:E.
  - lia.
  - intros H Hlo. destruct (Z.eq_dec j (lo + Z.of_nat k)) as [->|Hne];
      [exact E|]. apply IH; lia.
Qed.

(** [rfind] on a window inside the text. *)
Lemma rfind_window s sub a b :
  0 <= a <= b -> b <= len s -> 1 <= len sub ->
  rfind s sub a b = -1 \/
  (a <= rfind s sub a b /\ rfind s sub a b + len sub <= b).
Proof.
  intros Ha Hb Hsub. unfold rfind.
  destruct (Z.gtb_spec b (len s)); [lia|].
  destruct (Z.ltb_spec a 0); [lia|].
  destruct (Z.ltb_spec b 0); [lia|].
  destruct (rfind_down_range sub s a (Z.to_nat (b - a - len sub + 1)))
    as [E|[E _]]; [now left|right]. lia.
Qed.

End PyFacts.

(* ===================================================================== *)
(** * The splitter: reassembly, chunk size, cut rule                      *)
(* ===================================================================== *)

Module SplitterFacts.
Import Py Translator PyFacts SplitterSpec.

Lemma rfind_spec s sub a b :
  0 <= a <= b -> b <= len s -> 1 <= len sub ->
  (rfind s sub a b = -1 /\ none_in_window sub s a b) \/
  last_in_window sub s a b (rfind s sub a b).
Proof.
  intros Ha Hb Hsub. unfold rfind.
  destruct (Z.gtb_spec b (len s)); [lia|].
  destruct (Z.ltb_spec a 0); [lia|].
  destruct (Z.ltb_spec b 0); [lia|].
  pose proof (rfind_down_last sub s a (Z.to_nat (b - a - len sub + 1)))
    as Hlast.
  destruct (rfind_down_range sub s a (Z.to_nat (b - a - len sub + 1)))
    as [E|[E1 E2]].
  - left. split; [exact E|]. intros q Hq1 Hq2. apply Hlast; [|exact Hq1].
    rewrite E. lia.
  - right. unfold last_in_window. split; [lia|]. split; [lia|].
    split; [exact E2|].
    intros q Hq1 Hq2. apply Hlast; lia.
Qed.



Lemma len_newline : len newline = 1.
Proof. reflexivity. Qed.

Lemma len_period_space : len period_space = 2.
Proof. reflexivity. Qed.

Lemma find_cut_range text a b :
  0 <= a <= b -> b <= len text ->
  find_cut text a b = -1 \/ a <= find_cut text a b < b.
Proof.
  intros Ha Hb. unfold find_cut.
  destruct (rfind_window text newline a b Ha Hb) as [E|E];
    [rewrite len_newline; lia| |].
  - rewrite E. simpl.
    destruct (rfind_window text period_space a b Ha Hb) as [F|F];
      [rewrite len_period_space; lia|now left|].
    rewrite len_period_space in F. right. lia.
  - rewrite len_newline in E.
    destruct (Z.eqb_spec (rfind text newline a b) (-1)); [lia|]. right. lia.
Qed.

(** Every window with [max_chars >= 1] ends strictly after its start and
    not beyond [start + max_chars] or the end of the text. *)
Lemma window_end_bounds text max_chars start :
  1 <= max_chars -> 0 <= start < len text ->
  start < window_end text max_chars start <= window_limit text max_chars start.
Proof.
  intros Hm Hs. unfold window_end, window_limit.
  set (e := Z.min (len text) (start + max_chars)).
  assert (He : start < e <= len text) by (unfold e; lia).
  destruct (find_cut_range text start e) as [E|E]; [lia|lia| |].
  - rewrite E. simpl. lia.
  - destruct (negb _ && _); lia.
Qed.

(** The loop, from any reachable [start]: it returns, what it appends
    spells the rest of the text, and each appended chunk has between one
    and [max_chars] characters. *)
Lemma split_loop_spec text max_chars fuel : forall start chunks,
  1 <= max_chars -> 0 <= start <= len text ->
  (Z.to_nat (len text - start) < fuel)%nat ->
  exists new,
    split_loop fuel text max_chars start chunks = Some (chunks ++ new) /\
    concat new = drop (Z.to_nat start) text /\
    Forall (fun c => 1 <= len c <= max_chars) new.
Proof.
  induction fuel as [|fuel IH]; intros start chunks Hm Hs Hf; [lia|].
  simpl. destruct (Z.ltb_spec start (len text)) as [Hlt|Hge].
  - pose proof (window_end_bounds text max_chars start Hm (conj (proj1 Hs) Hlt))
      as Hw.
    unfold window_limit in Hw.
    set (e := window_end text max_chars start) in *.
    destruct (IH e (chunks ++ [slice text start e]) Hm) as (new & E1 & E2 & E3);
      [lia|lia|].
    exists (slice text start e :: new). split; [|split].
    + rewrite E1. now rewrite <- app_assoc.
    + change (concat (slice text start e :: new))
        with (slice text start e +:+ concat new).
      rewrite E2, slice_in_range by lia.
      replace (Z.to_nat e) with (Z.to_nat start + Z.to_nat (e - start))%nat by lia.
      rewrite <- drop_drop. apply take_drop.
    + constructor; [|exact E3]. rewrite length_slice by lia. lia.
  - exists []. split; [now rewrite app_nil_r|]. split; [|constructor].
    simpl. symmetry. unfold len in *.
    assert (Hd : String.length (drop (Z.to_nat start) text) = 0%nat)
      by (rewrite length_drop; lia).
    now destruct (drop (Z.to_nat start) text).
Qed.

(** For [max_chars <= 0] the budget is not what stops the loop: a search
    below the end of the text answers below the end of the text, so [start]
    stays below [len(text)] for ever. *)
Lemma rfind_below s sub a b :
  1 <= len sub -> b < len s ->
  rfind s sub a b = -1 \/ rfind s sub a b + 1 < len s.
Proof.
  intros Hsub Hb. unfold rfind.
  destruct (Z.gtb_spec b (len s)); [lia|].
  set (b' := if b <? 0 then Z.max 0 (b + len s) else b).
  set (a' := if a <? 0 then Z.max 0 (a + len s) else a).
  assert (Hb' : b' < len s \/ b' = 0).
  { unfold b'. destruct (Z.ltb_spec b 0); lia. }
  assert (Ha' : 0 <= a') by (unfold a'; destruct (Z.ltb_spec a 0); lia).
  destruct (rfind_down_range sub s a' (Z.to_nat (b' - a' - len sub + 1)))
    as [E|[E _]]; [now left|right]. lia.
Qed.

Lemma window_end_stalls text max_chars start :
  max_chars <= 0 -> start < len text ->
  window_end text max_chars start < len text.
Proof.
  intros Hm Hs. unfold window_end.
  set (e := Z.min (len text) (start + max_chars)).
  assert (He : e < len text) by (unfold e; lia).
  assert (Hc : find_cut text start e = -1 \/ find_cut text start e + 1 < len text).
  { unfold find_cut.
    destruct (rfind_below text newline start e) as [E|E];
      [rewrite len_newline; lia|exact He| |].
    - rewrite E. simpl. apply rfind_below; [rewrite len_period_space; lia|exact He].
    - destruct (Z.eqb_spec (rfind text newline start e) (-1)); [|now right].
      apply rfind_below; [rewrite len_period_space; lia|exact He]. }
  destruct (negb _ && _) eqn:C; [|exact He].
  destruct Hc as [Hc|Hc]; [|lia].
  rewrite Hc in C. discriminate C.
Qed.

Lemma split_loop_never_returns text max_chars fuel : forall start chunks,
  max_chars <= 0 -> start < len text ->
  split_loop fuel text max_chars start chunks = None.
Proof.
  induction fuel as [|fuel IH]; intros start chunks Hm Hs; [reflexivity|].
  simpl. destruct (Z.ltb_spec start (len text)) as [_|Hge]; [|lia].
  apply IH; [exact Hm|]. now apply window_end_stalls.
Qed.

Lemma split_text_spec text max_chars :
  1 <= max_chars ->
  exists chunks,
    _split_text text max_chars = Some chunks /\
    concat chunks = text /\
    Forall (fun c => 1 <= len c <= max_chars) chunks.
Proof.
  intros Hm. unfold _split_text.
  destruct (split_loop_spec text max_chars (S (String.length text)) 0 [] Hm)
    as (new & E1 & E2 & E3); [unfold len; lia|unfold len; lia|].
  exists new. repeat split; assumption.
Qed.










End SplitterFacts.

(* ===================================================================== *)
(** * The job registry: what an update touches                            *)
(* ===================================================================== *)

Module JobsFacts.
Import Jobs.

Lemma hasattr_true (job : Job) k : hasattr job k = true <-> is_Some (job !! k).
Proof. unfold hasattr. apply bool_decide_eq_true. Qed.

Lemma hasattr_false (job : Job) k : hasattr job k = false <-> job !! k = None.
Proof.
  unfold hasattr. rewrite bool_decide_eq_false. rewrite eq_None_not_Some. tauto.
Qed.

(** One attribute after the loop of [update]. *)
Lemma update_fields_lookup kwargs : forall (job : Job) k,
  update_fields kwargs job !! k =
    match job !! k with
    | None => None
    | Some old => Some (default old (named k kwargs))
    end.
Proof.
  induction kwargs as [|[k' v] rest IH]; intros job k.
  - simpl. now destruct (job !! k).
  - unfold update_fields in *. simpl foldl. rewrite IH. simpl named.
    destruct (hasattr job k') eqn:Hh.
    + unfold setattr. destruct (String.eqb_spec k' k) as [->|Hne].
      * rewrite lookup_insert_eq. apply hasattr_true in Hh as [old Hold].
        rewrite Hold. now destruct (named k rest).
      * rewrite lookup_insert_ne by exact Hne.
        destruct (job !! k); [|reflexivity]. now destruct (named k rest).
    + destruct (String.eqb_spec k' k) as [->|Hne].
      * apply hasattr_false in Hh. now rewrite Hh.
      * destruct (job !! k); [|reflexivity]. now destruct (named k rest).
Qed.

Lemma update_lookup s job_id job kwargs :
  _jobs s !! job_id = Some job ->
  _jobs (update job_id kwargs s) !! job_id = Some (update_fields kwargs job).
Proof. intros H. unfold update. rewrite H. simpl. apply lookup_insert_eq. Qed.

Lemma update_lookup_ne s job_id other kwargs :
  other <> job_id ->
  _jobs (update job_id kwargs s) !! other = _jobs s !! other.
Proof.
  intros H. unfold update. destruct (_jobs s !! job_id); [|reflexivity].
  simpl. apply lookup_insert_ne. congruence.
Qed.

Lemma update_output_dir s job_id kwargs :
  output_dir (update job_id kwargs s) = output_dir s.
Proof. unfold update. now destruct (_jobs s !! job_id). Qed.



End JobsFacts.

(* ===================================================================== *)
(** * Chunked upload: part names, arrival order, completion               *)
(* ===================================================================== *)

Module MainFacts.
Import Py Main PyFacts.

Lemma app_cons c s t : String c s +:+ t = String c (s +:+ t).
Proof. reflexivity. Qed.

Lemma app_nil_l s : EmptyString +:+ s = s.
Proof. reflexivity. Qed.

Lemma length_app s t :
  String.length (s +:+ t) = (String.length s + String.length t)%nat.
Proof.
  induction s as [|c r IH]; [reflexivity|].
  rewrite app_cons. simpl. now rewrite IH.
Qed.

Lemma app_inj_r u : forall s t, s +:+ u = t +:+ u -> s = t.
Proof.
  induction s as [|c r IH]; intros [|d t] H.
  - reflexivity.
  - apply (f_equal String.length) in H. rewrite !length_app in H.
    simpl in H. lia.
  - apply (f_equal String.length) in H. rewrite !length_app in H.
    simpl in H. lia.
  - rewrite !app_cons in H. injection H as -> H. f_equal. now apply IH.
Qed.

Lemma length_zeros n : String.length (zeros n) = n.
Proof. induction n as [|n IH]; simpl; [reflexivity|now rewrite IH]. Qed.

Lemma length_zfill w s : (w <= String.length (zfill w s))%nat.
Proof. unfold zfill. rewrite length_app, length_zeros. lia. Qed.

Lemma pretty_N_go_head x : forall s,
  (0 < x)%N ->
  exists c r, pretty_N_go x s = String c r /\ c <> "0"%char /\ c <> "-"%char.
Proof.
  induction (N.lt_wf_0 x) as [x _ IH]; intros s Hx.
  rewrite pretty_N_go_step by exact Hx.
  destruct (N.ltb_spec x 10) as [Hlt|Hge].
  - replace (x `div` 10)%N with 0%N by (symmetry; apply N.div_small; lia).
    rewrite pretty_N_go_0. rewrite N.mod_small by lia.
    eexists _, _. split; [reflexivity|].
    assert (x = 1 \/ x = 2 \/ x = 3 \/ x = 4 \/ x = 5 \/ x = 6
            \/ x = 7 \/ x = 8 \/ x = 9)%N as Hc by lia.
    destruct Hc as [->|[->|[->|[->|[->|[->|[->|[->| ->]]]]]]]];
      split; discriminate.
  - apply IH.
    + apply N.div_lt; lia.
    + apply N.div_str_pos. lia.
Qed.

Lemma pretty_N_canonical (x : N) : canonical (pretty x).
Proof.
  unfold pretty, pretty_N. destruct (decide (x = 0%N)) as [->|Hx].
  - simpl. split; [reflexivity|discriminate].
  - destruct (pretty_N_go_head x EmptyString) as (c & r & E & H0 & Hd); [lia|].
    rewrite E. simpl. split; [intros ->; congruence|exact Hd].
Qed.

Lemma zeros_canonical_inj a : forall b s t,
  canonical s -> canonical t ->
  zeros a +:+ s = zeros b +:+ t -> s = t.
Proof.
  induction a as [|a IH]; intros [|b] s t Hs Ht H; simpl in H;
    rewrite ?app_nil_l, ?app_cons in H.
  - exact H.
  - subst s. simpl in Hs. destruct Hs as [Hs _].
    specialize (Hs eq_refl).
    apply (f_equal String.length) in Hs. rewrite length_app in Hs.
    destruct t; [contradiction|simpl in Hs; lia].
  - subst t. simpl in Ht. destruct Ht as [Ht _].
    specialize (Ht eq_refl).
    apply (f_equal String.length) in Ht. rewrite length_app in Ht.
    destruct s; [contradiction|simpl in Ht; lia].
  - injection H as H. now apply (IH b).
Qed.

Lemma zfill_inj w (x y : N) : zfill w (pretty x) = zfill w (pretty y) -> x = y.
Proof.
  unfold zfill. intros H.
  apply zeros_canonical_inj in H; try apply pretty_N_canonical.
  now apply (inj pretty) in H.
Qed.

Lemma zfill_no_dash w (x : N) r : zfill w (pretty x) <> String "-"%char r.
Proof.
  unfold zfill. pose proof (pretty_N_canonical x) as Hc.
  destruct (w - String.length (pretty x))%nat; simpl.
  - destruct (pretty x) as [|c q]; [contradiction|]. simpl in Hc.
    change (EmptyString +:+ String c q) with (String c q).
    intros [= -> _]. now destruct Hc.
  - rewrite app_cons. discriminate.
Qed.

Lemma format_08d_inj i j : format_08d i = format_08d j -> i = j.
Proof.
  unfold format_08d.
  destruct (Z.ltb_spec i 0) as [Hi|Hi], (Z.ltb_spec j 0) as [Hj|Hj]; intros H.
  - change ("-" +:+ ?s) with (String "-"%char s) in H.
    injection H as H. apply zfill_inj in H. lia.
  - change ("-" +:+ ?s) with (String "-"%char s) in H.
    symmetry in H. now apply zfill_no_dash in H.
  - change ("-" +:+ ?s) with (String "-"%char s) in H.
    now apply zfill_no_dash in H.
  - apply zfill_inj in H. lia.
Qed.

(** Distinct indices are stored under distinct file names. *)
Lemma part_name_inj i j : part_name i = part_name j -> i = j.
Proof. unfold part_name. intros H. apply app_inj_r in H. now apply format_08d_inj. Qed.

(** No part file is the file that holds the declared name. *)
Lemma part_name_not_meta i : part_name i <> meta_name.
Proof.
  intros H. apply (f_equal String.length) in H.
  unfold part_name, format_08d in H. rewrite length_app in H.
  destruct (i <? 0).
  - change ("-" +:+ ?s) with (String "-"%char s) in H.
    pose proof (length_zfill 7 (pretty (Z.abs_N i))). simpl in H. lia.
  - pose proof (length_zfill 8 (pretty (Z.to_N i))). simpl in H. lia.
Qed.

Lemma receive_all_cons upload_id a rest fs :
  receive_all upload_id (a :: rest) fs =
  receive_all upload_id rest (upload_chunk upload_id a.1 a.2 fs).2.
Proof. reflexivity. Qed.

Lemma upload_chunk_known upload_id index chunk fs up_dir :
  chunk_dirs fs !! upload_id = Some up_dir ->
  upload_chunk upload_id index chunk fs =
  (Return tt,
   {| chunk_dirs :=
        <[upload_id := <[part_name index := chunk]> up_dir]> (chunk_dirs fs);
      upload_files := upload_files fs |}).
Proof. intros H. unfold upload_chunk. now rewrite H. Qed.

(** What the upload directory holds after a sequence of arrivals. *)
Lemma receive_all_spec upload_id arrivals : forall fs up_dir,
  chunk_dirs fs !! upload_id = Some up_dir ->
  exists up_dir',
    chunk_dirs (receive_all upload_id arrivals fs) !! upload_id = Some up_dir' /\
    upload_files (receive_all upload_id arrivals fs) = upload_files fs /\
    up_dir' !! meta_name = up_dir !! meta_name /\
    forall i, up_dir' !! part_name i =
              match final_payload arrivals i with
              | Some p => Some p
              | None => up_dir !! part_name i
              end.
Proof.
  induction arrivals as [|[j p] rest IH]; intros fs up_dir Hd.
  - exists up_dir. simpl. auto.
  - rewrite receive_all_cons, (upload_chunk_known _ _ _ _ _ Hd).
    cbn [fst snd].
    set (fs1 := {| chunk_dirs :=
                     <[upload_id := <[part_name j := p]> up_dir]> (chunk_dirs fs);
                   upload_files := upload_files fs |}).
    destruct (IH fs1 (<[part_name j := p]> up_dir))
      as (d' & E1 & E2 & E3 & E4).
    { apply lookup_insert_eq. }
    exists d'. split; [exact E1|]. split; [exact E2|]. split.
    + rewrite E3. apply lookup_insert_ne, part_name_not_meta.
    + intros i. rewrite E4. simpl final_payload.
      destruct (final_payload rest i); [reflexivity|].
      destruct (Z.eqb_spec j i) as [->|Hne].
      * apply lookup_insert_eq.
      * apply lookup_insert_ne. intros H. now apply part_name_inj in H.
Qed.

Lemma parts_app up_dir l1 l2 :
  parts up_dir (l1 ++ l2) = parts up_dir l1 +:+ parts up_dir l2.
Proof.
  unfold parts. induction l1 as [|i l1 IH]; [reflexivity|].
  simpl. change (concat (?x :: ?l)) with (x +:+ concat l).
  now rewrite IH, str_app_assoc.
Qed.

(** The loop runs through the indices that are present and copy well. *)
Lemma copy_parts_app fault up_dir l1 : forall l2 out,
  Forall (present fault up_dir) l1 ->
  copy_parts fault up_dir (l1 ++ l2) out =
  copy_parts fault up_dir l2 (out +:+ parts up_dir l1).
Proof.
  induction l1 as [|i l1 IH]; intros l2 out H.
  - simpl. unfold parts. simpl. now rewrite str_app_nil_r.
  - apply Forall_cons in H as [[[d Hd] Hf] H]. simpl.
    rewrite Hd, Hf, (IH _ _ H). f_equal.
    change (i :: l1) with ([i] ++ l1). rewrite parts_app, <- str_app_assoc.
    f_equal. f_equal. unfold parts, part. simpl. rewrite Hd. simpl.
    change (concat [d]) with (d +:+ EmptyString). now rewrite str_app_nil_r.
Qed.

Lemma copy_parts_all fault up_dir l out :
  Forall (present fault up_dir) l ->
  copy_parts fault up_dir l out = (Return tt, out +:+ parts up_dir l).
Proof.
  intros H. rewrite <- (app_nil_r l) at 1. now rewrite copy_parts_app.
Qed.

(** A normal end means every index was present and copied well. *)
Lemma copy_parts_return fault up_dir l : forall out out',
  copy_parts fault up_dir l out = (Return tt, out') ->
  Forall (present fault up_dir) l.
Proof.
  induction l as [|i l IH]; intros out out' H; [constructor|].
  simpl in H. destruct (up_dir !! part_name i) as [d|] eqn:Hd; [|discriminate].
  destruct (fault i) eqn:Hf; [discriminate|].
  constructor; [|now apply (IH _ _ H)]. split; [now rewrite Hd|exact Hf].
Qed.

Lemma range_split total i :
  0 <= i < total ->
  range total = range i ++ i :: seqZ (Z.succ i) (Z.pred (total - i)).
Proof.
  intros H. unfold range. replace total with (i + (total - i)) at 1 by lia.
  rewrite seqZ_app by lia. f_equal. rewrite seqZ_cons by lia. reflexivity.
Qed.

Lemma range_present fault up_dir i :
  (forall j, 0 <= j < i -> present fault up_dir j) ->
  Forall (present fault up_dir) (range i).
Proof. intros H. unfold range. apply Forall_seqZ. intros j Hj. apply H. lia. Qed.

Lemma scan_parts (up_dir : gmap string string) (k : nat) :
  (exists i, 0 <= i < Z.of_nat k /\ up_dir !! part_name i = None /\
             forall j, 0 <= j < i -> is_Some (up_dir !! part_name j)) \/
  (forall j, 0 <= j < Z.of_nat k -> is_Some (up_dir !! part_name j)).
Proof.
  induction k as [|k [(i & Hi & Hnone & Hall)|Hall]].
  - right. intros j Hj. lia.
  - left. exists i. split; [lia|]. split; assumption.
  - destruct (up_dir !! part_name (Z.of_nat k)) eqn:E.
    + right. intros j Hj. destruct (Z.eq_dec j (Z.of_nat k)) as [->|Hne].
      * rewrite E. eauto.
      * apply Hall. lia.
    + left. exists (Z.of_nat k). split; [lia|]. split; [exact E|exact Hall].
Qed.

(** The smallest missing index, given that some index is missing. *)
Lemma first_missing (up_dir : gmap string string) m :
  0 <= m -> up_dir !! part_name m = None ->
  exists i, 0 <= i <= m /\ up_dir !! part_name i = None /\
            forall j, 0 <= j < i -> is_Some (up_dir !! part_name j).
Proof.
  intros Hm Hnone.
  destruct (scan_parts up_dir (S (Z.to_nat m))) as [(i & Hi & Hin & Hall)|Hall].
  - exists i. split; [lia|]. split; assumption.
  - destruct (Hall m) as [d Hd]; [lia|]. congruence.
Qed.

Section Completion.
Variables (fs : FS) (upload_id : string) (up_dir : gmap string string)
          (meta : string).
Hypothesis known : chunk_dirs fs !! upload_id = Some up_dir.
Hypothesis has_meta : up_dir !! meta_name = Some meta.

Lemma complete_unfold fault total_chunks :
  upload_complete_io fault upload_id total_chunks fs =
  let '(r, out) := copy_parts fault up_dir (range total_chunks) EmptyString in
  let written := <[final_name upload_id meta := out]> (upload_files fs) in
  match r with
  | Return _ =>
      (Return (upload_id, final_name upload_id meta),
       {| chunk_dirs := delete upload_id (chunk_dirs fs);
          upload_files := written |})
  | HTTPException code detail =>
      (HTTPException code detail,
       {| chunk_dirs := chunk_dirs fs; upload_files := written |})
  | Error e =>
      (Error e, {| chunk_dirs := chunk_dirs fs; upload_files := written |})
  end.
Proof. unfold upload_complete_io. now rewrite known, has_meta. Qed.

(** Success: the parts in index order, and the directory removed. *)
Lemma complete_all_present fault total_chunks :
  (forall i, 0 <= i < total_chunks -> present fault up_dir i) ->
  upload_complete_io fault upload_id total_chunks fs =
  (Return (upload_id, final_name upload_id meta),
   {| chunk_dirs := delete upload_id (chunk_dirs fs);
      upload_files :=
        <[final_name upload_id meta := parts up_dir (range total_chunks)]>
          (upload_files fs) |}).
Proof.
  intros H. rewrite complete_unfold, copy_parts_all.
  - reflexivity.
  - apply range_present. exact H.
Qed.

(** A missing index after a run of good ones: a 400 that names it, the
    directory kept, the output file holding the parts before it. *)
Lemma complete_missing fault total_chunks i :
  0 <= i < total_chunks ->
  (forall j, 0 <= j < i -> present fault up_dir j) ->
  up_dir !! part_name i = None ->
  upload_complete_io fault upload_id total_chunks fs =
  (HTTPException 400 ("missing chunk " +:+ pretty i),
   {| chunk_dirs := chunk_dirs fs;
      upload_files :=
        <[final_name upload_id meta := parts up_dir (range i)]>
          (upload_files fs) |}).
Proof.
  intros Hi Hall Hnone.
  rewrite complete_unfold, (range_split total_chunks i Hi).
  rewrite copy_parts_app by (apply range_present; exact Hall).
  simpl. rewrite Hnone. reflexivity.
Qed.

(** A copy that fails after a run of good ones: the exception goes out,
    the directory is kept, the output file holds what was written. *)
Lemma complete_fault fault total_chunks i k data :
  0 <= i < total_chunks ->
  (forall j, 0 <= j < i -> present fault up_dir j) ->
  up_dir !! part_name i = Some data -> fault i = Some k ->
  upload_complete_io fault upload_id total_chunks fs =
  (Error (Exception "OSError"),
   {| chunk_dirs := chunk_dirs fs;
      upload_files :=
        <[final_name upload_id meta := parts up_dir (range i) +:+ take k data]>
          (upload_files fs) |}).
Proof.
  intros Hi Hall Hd Hf.
  rewrite complete_unfold, (range_split total_chunks i Hi).
  rewrite copy_parts_app by (apply range_present; exact Hall).
  simpl. rewrite Hd, Hf. reflexivity.
Qed.

(** A normal end only when every index is present and copies well. *)
Lemma complete_return fault total_chunks a fs' :
  upload_complete_io fault upload_id total_chunks fs = (Return a, fs') ->
  forall i, 0 <= i < total_chunks -> present fault up_dir i.
Proof.
  rewrite complete_unfold.
  destruct (copy_parts fault up_dir (range total_chunks) EmptyString)
    as [r out] eqn:E.
  destruct r as [[]| |]; try discriminate. intros _.
  apply copy_parts_return in E. unfold range in E.
  rewrite Forall_seqZ in E. intros i Hi. apply E. lia.
Qed.

End Completion.

(** C4.  Whatever the order in which the chunks arrive, and however
    often an index is sent again, once every index below
    [total_chunks >= 1] has arrived [upload_complete] succeeds and the file
    it stores is, byte for byte, the last payload of chunk 0, then that of
    chunk 1, and so on up to chunk [total_chunks - 1]. *)
Theorem complete_reassembles (fs : FS) (upload_id : string)
        (up_dir : gmap string string) (meta : string) (total_chunks : Z)
        (arrivals : list (Z * string)) :
  chunk_dirs fs !! upload_id = Some up_dir ->
  up_dir !! meta_name = Some meta ->
  1 <= total_chunks ->
  (forall i, 0 <= i < total_chunks -> is_Some (final_payload arrivals i)) ->
  let r := upload_complete upload_id total_chunks
                           (receive_all upload_id arrivals fs) in
  r.1 = Return (upload_id, final_name upload_id meta) /\
  upload_files r.2 !! final_name upload_id meta =
    Some (concat (map (fun i => default EmptyString (final_payload arrivals i))
                      (range total_chunks))).
Proof.
  intros Hknown Hmeta Htotal Hall r.
  destruct (receive_all_spec upload_id arrivals fs up_dir Hknown)
    as (d' & E1 & E2 & E3 & E4).
  rewrite Hmeta in E3.
  assert (Hr : r = _) by (apply (complete_all_present _ _ d' meta E1 E3 (fun _ => None));
    intros i Hi; split; [|reflexivity];
    rewrite E4; destruct (Hall i Hi) as [p ->]; eauto).
  rewrite Hr. cbn [fst snd upload_files]. split; [reflexivity|].
  rewrite lookup_insert_eq. f_equal. unfold parts. f_equal.
  apply map_ext_in. intros i Hi.
  apply list_elem_of_In, elem_of_seqZ in Hi.
  unfold part. rewrite E4. destruct (Hall i) as [p ->]; [lia|reflexivity].
Qed.

Lemma complete_reassembles_witness :
  let fs := (upload_init "u1" "doc.txt" {| chunk_dirs := ∅; upload_files := ∅ |}).2 in
  let arrivals := [(2, "cc"); (0, "a"); (1, "bbb"); (0, "AA")] in
  let r := upload_complete "u1" 3 (receive_all "u1" arrivals fs) in
  r.1 = Return ("u1", "u1_doc.txt") /\
  upload_files r.2 !! "u1_doc.txt" = Some "AAbbbcc".
Proof.
  intros fs arrivals.
  apply (complete_reassembles fs "u1" (<[meta_name := "doc.txt"]> ∅) "doc.txt"
                              3 arrivals).
  - apply lookup_insert_eq.
  - apply lookup_insert_eq.
  - lia.
  - intros i Hi.
    assert (i = 0 \/ i = 1 \/ i = 2) as [->|[->| ->]] by lia;
      vm_compute; eauto.
Defined.

(** C5.  If some index below [total_chunks] is missing when
    [upload_complete] is called on a known session, the call fails with
    status 400 and the detail [missing chunk i], where [i] is the smallest
    missing index, whatever other indices are present. *)
Theorem complete_names_first_missing (fs : FS) (upload_id : string)
        (up_dir : gmap string string) (meta : string) (total_chunks m : Z) :
  chunk_dirs fs !! upload_id = Some up_dir ->
  up_dir !! meta_name = Some meta ->
  0 <= m < total_chunks ->
  up_dir !! part_name m = None ->
  exists i,
    0 <= i <= m /\ up_dir !! part_name i = None /\
    (forall j, 0 <= j < i -> is_Some (up_dir !! part_name j)) /\
    (upload_complete upload_id total_chunks fs).1 =
      HTTPException 400 ("missing chunk " +:+ pretty i).
Proof.
  intros Hknown Hmeta Hm Hnone.
  destruct (first_missing up_dir m) as (i & Hi & Hin & Hbefore); [lia|exact Hnone|].
  exists i. split; [exact Hi|]. split; [exact Hin|]. split; [exact Hbefore|].
  unfold upload_complete.
  rewrite (complete_missing fs upload_id up_dir meta Hknown Hmeta
                            (fun _ => None) total_chunks i); [reflexivity|lia| |exact Hin].
  intros j Hj. split; [now apply Hbefore|reflexivity].
Qed.

Lemma complete_names_first_missing_witness :
  let fs := receive_all "u1" [(3, "dd"); (0, "a")]
              (upload_init "u1" "doc.txt" {| chunk_dirs := ∅; upload_files := ∅ |}).2 in
  let up_dir : gmap string string :=
    <[part_name 0 := "a"]> (<[part_name 3 := "dd"]> (<[meta_name := "doc.txt"]> ∅)) in
  exists i,
    0 <= i <= 2 /\
    up_dir !! part_name i = None /\
    (forall j, 0 <= j < i -> is_Some (up_dir !! part_name j)) /\
    (upload_complete "u1" 4 fs).1 = HTTPException 400 ("missing chunk " +:+ pretty i).
Proof.
  intros fs up_dir.
  apply (complete_names_first_missing fs "u1" up_dir "doc.txt" 4 2).
  - vm_compute. reflexivity.
  - vm_compute. reflexivity.
  - lia.
  - vm_compute. reflexivity.
Defined.

(** C7, as the code has it.  On a known session the chunk directory is
    removed exactly when [upload_complete] ends normally, that is when
    every index is present and every copy goes through; on every other
    path the directory is left as it was.  The output file is opened
    before the first index is looked at: when an index is missing, it is
    left holding the parts before the first missing index, and when a copy
    fails, the parts before it and what the copy had written. *)
Theorem complete_cleanup (fault : Z -> option nat) (fs : FS)
        (upload_id : string) (up_dir : gmap string string) (meta : string)
        (total_chunks : Z) :
  chunk_dirs fs !! upload_id = Some up_dir ->
  up_dir !! meta_name = Some meta ->
  let r := upload_complete_io fault upload_id total_chunks fs in
  ((exists a, r.1 = Return a) <->
   (forall i, 0 <= i < total_chunks -> present fault up_dir i)) /\
  ((exists a, r.1 = Return a) -> chunk_dirs r.2 !! upload_id = None) /\
  ((forall a, r.1 <> Return a) -> chunk_dirs r.2 !! upload_id = Some up_dir) /\
  (forall i, 0 <= i < total_chunks ->
     (forall j, 0 <= j < i -> present fault up_dir j) ->
     up_dir !! part_name i = None ->
     r.1 = HTTPException 400 ("missing chunk " +:+ pretty i) /\
     upload_files r.2 !! final_name upload_id meta =
       Some (parts up_dir (range i))) /\
  (forall i k data, 0 <= i < total_chunks ->
     (forall j, 0 <= j < i -> present fault up_dir j) ->
     up_dir !! part_name i = Some data -> fault i = Some k ->
     r.1 = Error (Exception "OSError") /\
     upload_files r.2 !! final_name upload_id meta =
       Some (parts up_dir (range i) +:+ take k data)).
Proof.
  intros Hknown Hmeta r.
  pose proof (complete_unfold fs upload_id up_dir meta Hknown Hmeta
                              fault total_chunks) as Hu.
  fold r in Hu. split; [|split; [|split; [|split]]].
  - split.
    + intros [a Ha]. destruct r as [r1 fs'] eqn:Er. simpl in Ha. subst r1.
      exact (complete_return fs upload_id up_dir meta Hknown Hmeta
                             fault total_chunks a fs' Er).
    + intros Hall. unfold r.
      rewrite (complete_all_present fs upload_id up_dir meta Hknown Hmeta
                                    fault total_chunks Hall).
      eexists. reflexivity.
  - intros [a Ha]. rewrite Hu in Ha |- *.
    destruct (copy_parts fault up_dir (range total_chunks) EmptyString)
      as [[[]| |] out]; try discriminate Ha.
    simpl. apply lookup_delete_eq.
  - intros Hne. rewrite Hu in Hne |- *.
    destruct (copy_parts fault up_dir (range total_chunks) EmptyString)
      as [[[]| |] out]; simpl in *; try exact Hknown.
    now destruct (Hne (upload_id, final_name upload_id meta)).
  - intros i Hi Hall Hnone. unfold r.
    rewrite (complete_missing fs upload_id up_dir meta Hknown Hmeta
                              fault total_chunks i Hi Hall Hnone).
    simpl. split; [reflexivity|apply lookup_insert_eq].
  - intros i k data Hi Hall Hd Hf. unfold r.
    rewrite (complete_fault fs upload_id up_dir meta Hknown Hmeta
                            fault total_chunks i k data Hi Hall Hd Hf).
    simpl. split; [reflexivity|apply lookup_insert_eq].
Qed.

Lemma complete_cleanup_witness :
  let fs := (upload_init "u1" "doc.txt" {| chunk_dirs := ∅; upload_files := ∅ |}).2 in
  let up_dir : gmap string string := <[meta_name := "doc.txt"]> ∅ in
  let r := upload_complete_io (fun _ => None) "u1" 1 fs in
  chunk_dirs fs !! "u1" = Some up_dir /\
  up_dir !! meta_name = Some "doc.txt" /\
  ((forall a, r.1 <> Return a) -> chunk_dirs r.2 !! "u1" = Some up_dir).
Proof.
  intros fs up_dir r.
  assert (H1 : chunk_dirs fs !! "u1" = Some up_dir) by apply lookup_insert_eq.
  assert (H2 : up_dir !! meta_name = Some "doc.txt") by apply lookup_insert_eq.
  split; [exact H1|]. split; [exact H2|].
  exact (proj1 (proj2 (proj2 (complete_cleanup (fun _ => None) fs "u1" up_dir
                                             "doc.txt" 1 H1 H2)))).
Defined.

(** C7 as it is worded fails twice.  With part 0 stored and part 1
    missing, [upload_complete] answers [missing chunk 1] and yet leaves the
    output file behind, holding part 0.  With both parts stored and the
    copy of part 1 failing, the call ends in that failure and the chunk
    directory is still there. *)
Lemma complete_cleanup_counterexample :
  let fs0 := (upload_init "u1" "doc.txt" {| chunk_dirs := ∅; upload_files := ∅ |}).2 in
  let r1 := upload_complete "u1" 2 (receive_all "u1" [(0, "abc")] fs0) in
  let r2 := upload_complete_io (fun i => if i =? 1 then Some 1%nat else None)
              "u1" 2 (receive_all "u1" [(0, "abc"); (1, "def")] fs0) in
  (r1.1 = HTTPException 400 "missing chunk 1" /\
   upload_files r1.2 !! "u1_doc.txt" = Some "abc") /\
  (r2.1 = Error (Exception "OSError") /\
   chunk_dirs r2.2 !! "u1" <> None).
Proof.
  intros fs0 r1 r2. split; split.
  - vm_compute. reflexivity.
  - vm_compute. reflexivity.
  - vm_compute. reflexivity.
  - vm_compute. discriminate.
Qed.

End MainFacts.

(* ===================================================================== *)
(** * The job runner: what polling can see of a run                       *)
(* ===================================================================== *)

Module RunFacts.
Import Py Jobs Exec Pipeline Process RunSpec JobsFacts Translator.
Local Open Scope Z_scope.
Local Open Scope run_scope.

(** ** Steps of a run *)

Lemma bind_ret {A B} (a : A) (k : A -> M B) st : bind (ret a) k st = k a st.
Proof. reflexivity. Qed.

Lemma bind_lift_ok {A B} (a : A) (k : A -> M B) st :
  bind (lift (Ok a)) k st = k a st.
Proof. reflexivity. Qed.

Lemma bind_lift_raise {A B} e (k : A -> M B) st :
  bind (lift (Raise e)) k st = (Raise e, st).
Proof. reflexivity. Qed.

Lemma bind_lift_hang {A B} (k : A -> M B) st :
  bind (lift Hang) k st = (Hang, st).
Proof. reflexivity. Qed.

Lemma bind_update {B} job_id kwargs (k : unit -> M B) st :
  bind (update job_id kwargs) k st = k tt (after_update job_id kwargs st).
Proof. reflexivity. Qed.

Lemma bind_emit {B} ev (k : unit -> M B) st :
  bind (emit ev) k st = k tt (after_emit ev st).
Proof. reflexivity. Qed.

Lemma update_run job_id kwargs st :
  update job_id kwargs st = (Ok tt, after_update job_id kwargs st).
Proof. reflexivity. Qed.

(** ** Jobs that carry the attributes the runner writes *)

Lemma tracked_update_fields kwargs job :
  tracked job -> tracked (update_fields kwargs job).
Proof.
  intros ([a Ha] & [b Hb] & [c Hc] & [d Hd]). unfold tracked.
  rewrite !update_fields_lookup, Ha, Hb, Hc, Hd. eauto.
Qed.

Lemma tracked_mk_job job_id status progress message file_path source_lang
      target_lang output_path :
  tracked (mk_job job_id status progress message file_path source_lang
                  target_lang output_path).
Proof. unfold tracked, mk_job. repeat split; vm_compute; eauto. Qed.

Lemma job_at_after_update st job_id job kwargs :
  job_at st job_id job ->
  job_at (after_update job_id kwargs st) job_id (update_fields kwargs job).
Proof. intros H. unfold job_at, after_update. simpl. now apply update_lookup. Qed.

Lemma log_after_update st job_id job kwargs :
  job_at st job_id job ->
  log (after_update job_id kwargs st) =
  log st ++ [EvUpdate job_id (Some (update_fields kwargs job))].
Proof.
  intros H. unfold after_update, Jobs.get. simpl. now rewrite (update_lookup _ _ _ _ H).
Qed.

(** ** Reading the trace *)

Lemma trail_app l1 l2 : trail (l1 ++ l2) = trail l1 ++ trail l2.
Proof. unfold trail. apply omap_app. Qed.

Lemma translator_calls_app l1 l2 :
  translator_calls (l1 ++ l2) = translator_calls l1 ++ translator_calls l2.
Proof. unfold translator_calls. apply omap_app. Qed.

Lemma documents_app l1 l2 : documents (l1 ++ l2) = documents l1 ++ documents l2.
Proof. unfold documents. apply omap_app. Qed.

Lemma view_on_progress job p msg :
  tracked job ->
  view_of (update_fields [("progress", VFloat (clamp p)); ("message", VStr msg)] job)
  = progress_view (job !! "status") p msg.
Proof.
  intros ([a Ha] & [b Hb] & [c Hc] & _). unfold view_of, progress_view.
  rewrite !update_fields_lookup, Ha, Hb, Hc. reflexivity.
Qed.

Lemma status_on_progress job p msg :
  update_fields [("progress", VFloat p); ("message", VStr msg)] job !! "status"
  = job !! "status".
Proof. rewrite update_fields_lookup. now destruct (job !! "status"). Qed.

(** One call of [on_progress] on a tracked job. *)
Lemma on_progress_step {B} job_id p msg (k : unit -> M B) st job :
  job_at st job_id job -> tracked job ->
  exists st' job',
    bind (on_progress job_id p msg) k st = k tt st' /\
    job_at st' job_id job' /\ tracked job' /\
    job' !! "status" = job !! "status" /\
    output_dir (store st') = output_dir (store st) /\
    log st' = log st ++ [EvUpdate job_id (Some job')] /\
    view_of job' = progress_view (job !! "status") p msg.
Proof.
  intros Hj Ht. unfold on_progress. rewrite bind_update.
  fold (clamp p).
  exists (after_update job_id [("progress", VFloat (clamp p)); ("message", VStr msg)] st),
         (update_fields [("progress", VFloat (clamp p)); ("message", VStr msg)] job).
  split; [reflexivity|].
  split; [now apply job_at_after_update|].
  split; [now apply tracked_update_fields|].
  split; [apply status_on_progress|].
  split; [apply update_output_dir|].
  split; [now apply log_after_update|].
  now apply view_on_progress.
Qed.

Lemma trail_after_emit_translate st chunk :
  trail (log (after_emit (EvTranslate chunk) st)) = trail (log st).
Proof. unfold after_emit. simpl. rewrite trail_app. simpl. apply app_nil_r. Qed.

Lemma trail_after_emit_write st text path :
  trail (log (after_emit (EvWrite text path) st)) = trail (log st).
Proof. unfold after_emit. simpl. rewrite trail_app. simpl. apply app_nil_r. Qed.

(** What the chunk loop has done when it ends, however it ends: [k]
    chunks were announced and handed to a translation function, in order;
    a normal end means all of them were. *)
Lemma translate_chunks_run env sl tl total job_id chunks :
  forall i parts st job,
  job_at st job_id job -> tracked job ->
  exists k st' r job',
    translate_chunks env sl tl total (Some (on_progress job_id)) i chunks parts st
      = (r, st') /\
    (k <= length chunks)%nat /\
    (forall x, r = Ok x -> k = length chunks) /\
    ((use_openai env = false \/ translation_succeeds env) -> exists x, r = Ok x) /\
    job_at st' job_id job' /\ tracked job' /\
    job' !! "status" = job !! "status" /\
    output_dir (store st') = output_dir (store st) /\
    trail (log st') =
      trail (log st) ++ map (chunk_view (job !! "status") total) (seq i k) /\
    translator_calls (log st') = translator_calls (log st) ++ firstn k chunks /\
    documents (log st') = documents (log st).
Proof.
  induction chunks as [|chunk rest IH]; intros i parts st job Hj Ht.
  - exists O, st, (Ok parts), job. simpl.
    rewrite !app_nil_r.
    split; [reflexivity|]. split; [lia|]. split; [reflexivity|].
    split; [eauto|]. repeat split; solve [assumption | apply Ht].
  - simpl translate_chunks. unfold report.
    destruct (on_progress_step job_id (fraction i total) (chunk_message i total)
                (fun _ =>
                   emit (EvTranslate chunk) ;;;
                   out <- (if use_openai env
                           then lift (_translate_with_openai env i chunk sl tl)
                           else ret (_translate_fallback chunk sl tl)) ;;
                   translate_chunks env sl tl total (Some (on_progress job_id))
                                    (S i) rest (parts ++ [out]))
                st job Hj Ht)
      as (st1 & job1 & E & Hj1 & Ht1 & Hs1 & Ho1 & Hl1 & Hv1).
    rewrite E, bind_emit. clear E.
    set (st2 := after_emit (EvTranslate chunk) st1).
    assert (Hj2 : job_at st2 job_id job1) by exact Hj1.
    assert (Htr2 : trail (log st2) = trail (log st) ++ [chunk_view (job !! "status") total i]).
    { unfold st2. rewrite trail_after_emit_translate, Hl1, trail_app. simpl.
      now rewrite Hv1. }
    assert (Hc2 : translator_calls (log st2) = translator_calls (log st) ++ [chunk]).
    { unfold st2, after_emit. simpl. rewrite Hl1, !translator_calls_app. simpl.
      now rewrite app_nil_r. }
    assert (Hd2 : documents (log st2) = documents (log st)).
    { unfold st2, after_emit. simpl. rewrite Hl1, !documents_app. simpl.
      now rewrite !app_nil_r. }
    assert (Hstop : forall (r : result (list string)),
              (forall x, r <> Ok x) ->
              ((use_openai env = false \/ translation_succeeds env) -> False) ->
              exists k st' r' job',
                (r, st2) = (r', st') /\
                (k <= length (chunk :: rest))%nat /\
                (forall x, r' = Ok x -> k = length (chunk :: rest)) /\
                ((use_openai env = false \/ translation_succeeds env) ->
                 exists x, r' = Ok x) /\
                job_at st' job_id job' /\ tracked job' /\
                job' !! "status" = job !! "status" /\
                output_dir (store st') = output_dir (store st) /\
                trail (log st') =
                  trail (log st) ++ map (chunk_view (job !! "status") total) (seq i k) /\
                translator_calls (log st') =
                  translator_calls (log st) ++ firstn k (chunk :: rest) /\
                documents (log st') = documents (log st)).
    { intros r Hr Hno. exists 1%nat, st2, r, job1. simpl.
      split; [reflexivity|]. split; [lia|].
      split; [intros x Hx; now destruct (Hr x)|].
      split; [intros H; now destruct (Hno H)|].
      split; [exact Hj2|]. split; [exact Ht1|]. split; [exact Hs1|].
      split; [exact Ho1|]. split; [exact Htr2|]. split; [exact Hc2|exact Hd2]. }
    assert (Hgo : forall out,
              exists k st' r' job',
                translate_chunks env sl tl total (Some (on_progress job_id))
                                 (S i) rest (parts ++ [out]) st2 = (r', st') /\
                (k <= length (chunk :: rest))%nat /\
                (forall x, r' = Ok x -> k = length (chunk :: rest)) /\
                ((use_openai env = false \/ translation_succeeds env) ->
                 exists x, r' = Ok x) /\
                job_at st' job_id job' /\ tracked job' /\
                job' !! "status" = job !! "status" /\
                output_dir (store st') = output_dir (store st) /\
                trail (log st') =
                  trail (log st) ++ map (chunk_view (job !! "status") total) (seq i k) /\
                translator_calls (log st') =
                  translator_calls (log st) ++ firstn k (chunk :: rest) /\
                documents (log st') = documents (log st)).
    { intros out.
      destruct (IH (S i) (parts ++ [out]) st2 job1 Hj2 Ht1)
        as (k & st' & r' & job' & E & Hk & Hall & Hok & Hj' & Ht' & Hs' & Ho' & Htr' & Hc' & Hd').
      exists (S k), st', r', job'. split; [exact E|].
      split; [simpl; lia|].
      split; [intros x Hx; simpl; f_equal; now apply (Hall x)|].
      split; [exact Hok|].
      split; [exact Hj'|]. split; [exact Ht'|].
      split; [now rewrite Hs'|].
      split; [now rewrite Ho'|].
      split; [|split].
      - rewrite Htr', Htr2, Hs1, <- app_assoc. reflexivity.
      - rewrite Hc', Hc2, <- app_assoc. reflexivity.
      - now rewrite Hd'. }
    destruct (use_openai env) eqn:Hopen.
    + destruct (_translate_with_openai env i chunk sl tl) as [out|e|] eqn:Hcall.
      * rewrite bind_lift_ok. apply Hgo.
      * rewrite bind_lift_raise. apply Hstop; [discriminate|].
        intros [H|H]; [discriminate|].
        destruct (H i chunk sl tl) as [x Hx]. congruence.
      * rewrite bind_lift_hang. apply Hstop; [discriminate|].
        intros [H|H]; [discriminate|].
        destruct (H i chunk sl tl) as [x Hx]. congruence.
    + rewrite bind_ret. apply Hgo.
Qed.

Lemma bind_ok {A B} (c : M A) (k : A -> M B) st a st' :
  c st = (Ok a, st') -> bind c k st = k a st'.
Proof. intros H. unfold bind. now rewrite H. Qed.

Lemma bind_raise {A B} (c : M A) (k : A -> M B) st e st' :
  c st = (Raise e, st') -> bind c k st = (Raise e, st').
Proof. intros H. unfold bind. now rewrite H. Qed.

Lemma bind_hang {A B} (c : M A) (k : A -> M B) st st' :
  c st = (Hang, st') -> bind c k st = (Hang, st').
Proof. intros H. unfold bind. now rewrite H. Qed.

(** One call of [on_progress] on a tracked job, as a run of its own. *)
Lemma on_progress_run job_id p msg st job :
  job_at st job_id job -> tracked job ->
  exists st' job',
    on_progress job_id p msg st = (Ok tt, st') /\
    job_at st' job_id job' /\ tracked job' /\
    job' !! "status" = job !! "status" /\
    output_dir (store st') = output_dir (store st) /\
    trail (log st') = trail (log st) ++ [progress_view (job !! "status") p msg] /\
    translator_calls (log st') = translator_calls (log st) /\
    documents (log st') = documents (log st).
Proof.
  intros Hj Ht.
  destruct (on_progress_step job_id p msg ret st job Hj Ht)
    as (st' & job' & E & Hj' & Ht' & Hs' & Ho' & Hl' & Hv').
  exists st', job'. split.
  - unfold bind in E. destruct (on_progress job_id p msg st) as [[[]|e|] st1] eqn:E1;
      try (unfold on_progress in E1; rewrite update_run in E1; discriminate E1).
    unfold ret in E. now injection E as ->.
  - split; [exact Hj'|]. split; [exact Ht'|]. split; [exact Hs'|].
    split; [exact Ho'|].
    rewrite Hl', trail_app, translator_calls_app, documents_app. simpl.
    rewrite Hv', !app_nil_r. auto.
Qed.

(** What the pipeline has done when it ends, however it ends.  [k] chunks
    were announced; the writing step and the final report, when they are
    reached, come after all chunks were announced. *)
Lemma pipeline_run env file_path sl tl out job_id st job :
  job_at st job_id job -> tracked job ->
  let n := chunk_count env file_path in
  exists k tail st' r job',
    translate_file_to_docx env file_path sl tl out (Some (on_progress job_id)) st
      = (r, st') /\
    job_at st' job_id job' /\ tracked job' /\
    job' !! "status" = job !! "status" /\
    output_dir (store st') = output_dir (store st) /\
    trail (log st') =
      trail (log st) ++
      map (chunk_view (job !! "status") (Nat.max 1 n)) (seq 0 k) ++ tail /\
    (k <= n)%nat /\
    (tail = [] \/
     k = n /\ (tail = [writing_view (job !! "status")] \/
               tail = [writing_view (job !! "status"); done_view (job !! "status")])) /\
    translator_calls (log st') =
      translator_calls (log st) ++ firstn k (chunks_of env file_path) /\
    (r = Ok tt ->
     tail = [writing_view (job !! "status"); done_view (job !! "status")]) /\
    (forall text m,
       Readers.extract_text (files env) file_path = Ok text ->
       max_chars env = Ok m -> 1 <= m ->
       use_openai env = false \/ translation_succeeds env ->
       writer_succeeds env -> r = Ok tt).
Proof.
  intros Hj Ht n.
  assert (Hearly : forall (r : result unit),
            r <> Ok tt ->
            (forall text m,
               Readers.extract_text (files env) file_path = Ok text ->
               max_chars env = Ok m -> 1 <= m -> False) ->
            exists k tail st' r' job',
              (r, st) = (r', st') /\
              job_at st' job_id job' /\ tracked job' /\
              job' !! "status" = job !! "status" /\
              output_dir (store st') = output_dir (store st) /\
              trail (log st') =
                trail (log st) ++
                map (chunk_view (job !! "status") (Nat.max 1 n)) (seq 0 k) ++ tail /\
              (k <= n)%nat /\
              (tail = [] \/
               k = n /\ (tail = [writing_view (job !! "status")] \/
                         tail = [writing_view (job !! "status");
                                 done_view (job !! "status")])) /\
              translator_calls (log st') =
                translator_calls (log st) ++ firstn k (chunks_of env file_path) /\
              (r' = Ok tt ->
               tail = [writing_view (job !! "status"); done_view (job !! "status")]) /\
              (forall text m,
                 Readers.extract_text (files env) file_path = Ok text ->
                 max_chars env = Ok m -> 1 <= m ->
                 use_openai env = false \/ translation_succeeds env ->
                 writer_succeeds env -> r' = Ok tt)).
  { intros r Hr Hno. exists O, [], st, r, job. simpl. rewrite !app_nil_r.
    split; [reflexivity|]. split; [exact Hj|]. split; [exact Ht|].
    split; [reflexivity|]. split; [reflexivity|]. split; [reflexivity|].
    split; [lia|]. split; [now left|]. split; [reflexivity|].
    split; [intros H; now destruct (Hr H)|].
    intros text m H1 H2 H3 _ _. destruct (Hno text m H1 H2 H3). }
  unfold translate_file_to_docx.
  destruct (Readers.extract_text (files env) file_path) as [text|e|] eqn:Hext.
  2:{ rewrite bind_lift_raise. apply Hearly; [discriminate|]. intros ? ? [=]. }
  2:{ rewrite bind_lift_hang. apply Hearly; [discriminate|]. intros ? ? [=]. }
  rewrite bind_lift_ok.
  destruct (max_chars env) as [m|e|] eqn:Hmax.
  2:{ rewrite bind_lift_raise. apply Hearly; [discriminate|]. intros ? ? _ [=]. }
  2:{ rewrite bind_lift_hang. apply Hearly; [discriminate|]. intros ? ? _ [=]. }
  rewrite bind_lift_ok.
  destruct (_split_text text m) as [chunks|] eqn:Hsplit.
  2:{ apply Hearly; [discriminate|]. intros text' m' [= <-] [= <-] Hm.
      destruct (SplitterFacts.split_text_spec text m Hm) as (c & Hc & _).
      congruence. }
  assert (Hn : n = length chunks).
  { unfold n, chunk_count. now rewrite Hext, Hmax, Hsplit. }
  assert (Hchunks : chunks_of env file_path = chunks).
  { unfold chunks_of. now rewrite Hext, Hmax, Hsplit. }
  rewrite Hchunks. rewrite Hn. clear Hearly.
  destruct (translate_chunks_run env sl tl (Nat.max 1 (length chunks)) job_id chunks
                                 0%nat [] st job Hj Ht)
    as (k & st1 & r1 & job1 & E1 & Hk & Hall & Hok & Hj1 & Ht1 & Hs1 & Ho1 & Htr1 & Hc1 & Hd1).
  destruct r1 as [parts|e|].
  - rewrite (bind_ok _ _ _ _ _ E1).
    specialize (Hall parts eq_refl). subst k.
    destruct (on_progress_run job_id (95 # 100) "Writing Word document" st1 job1 Hj1 Ht1)
      as (st2 & job2 & E2 & Hj2 & Ht2 & Hs2 & Ho2 & Htr2 & Hc2 & Hd2).
    unfold report. rewrite (bind_ok _ _ _ _ _ E2), bind_emit.
    set (st3 := after_emit (EvWrite (join newline parts) out) st2).
    assert (Hj3 : job_at st3 job_id job2) by exact Hj2.
    assert (Htr3 : trail (log st3) =
                   trail (log st) ++
                   map (chunk_view (job !! "status") (Nat.max 1 (length chunks)))
                       (seq 0 (length chunks)) ++ [writing_view (job !! "status")]).
    { unfold st3. rewrite trail_after_emit_write, Htr2, Htr1, Hs1, <- app_assoc.
      reflexivity. }
    assert (Hc3 : translator_calls (log st3) =
                  translator_calls (log st) ++ firstn (length chunks) chunks).
    { unfold st3, after_emit. simpl. rewrite translator_calls_app. simpl.
      now rewrite app_nil_r, Hc2, Hc1. }
    assert (Ho3 : output_dir (store st3) = output_dir (store st)).
    { unfold st3, after_emit. simpl. now rewrite Ho2, Ho1. }
    destruct (write_docx env (join newline parts) out) as [[]|e|] eqn:Hw.
    + rewrite bind_lift_ok.
      destruct (on_progress_run job_id 1 "Done" st3 job2 Hj3 Ht2)
        as (st4 & job4 & E4 & Hj4 & Ht4 & Hs4 & Ho4 & Htr4 & Hc4 & Hd4).
      exists (length chunks),
             [writing_view (job !! "status"); done_view (job !! "status")],
             st4, (Ok tt), job4.
      split; [exact E4|]. split; [exact Hj4|]. split; [exact Ht4|].
      split; [now rewrite Hs4, Hs2, Hs1|].
      split; [now rewrite Ho4, Ho3|].
      split; [rewrite Htr4, Htr3, Hs2, Hs1, <- !app_assoc; reflexivity|].
      split; [lia|]. split; [right; split; [reflexivity|now right]|].
      split; [now rewrite Hc4, Hc3|]. split; reflexivity.
    + rewrite bind_lift_raise.
      exists (length chunks), [writing_view (job !! "status")], st3, (Raise e), job2.
      split; [reflexivity|]. split; [exact Hj3|]. split; [exact Ht2|].
      split; [now rewrite Hs2, Hs1|].
      split; [exact Ho3|].
      split; [exact Htr3|].
      split; [lia|]. split; [right; split; [reflexivity|now left]|].
      split; [exact Hc3|]. split; [discriminate|].
      intros text' m' _ _ _ _ Hws. rewrite Hws in Hw. discriminate Hw.
    + rewrite bind_lift_hang.
      exists (length chunks), [writing_view (job !! "status")], st3, Hang, job2.
      split; [reflexivity|]. split; [exact Hj3|]. split; [exact Ht2|].
      split; [now rewrite Hs2, Hs1|].
      split; [exact Ho3|].
      split; [exact Htr3|].
      split; [lia|]. split; [right; split; [reflexivity|now left]|].
      split; [exact Hc3|]. split; [discriminate|].
      intros text' m' _ _ _ _ Hws. rewrite Hws in Hw. discriminate Hw.
  - rewrite (bind_raise _ _ _ _ _ E1).
    exists k, [], st1, (Raise e), job1. rewrite app_nil_r.
    split; [reflexivity|]. split; [exact Hj1|]. split; [exact Ht1|].
    split; [exact Hs1|]. split; [exact Ho1|]. split; [exact Htr1|].
    split; [exact Hk|]. split; [now left|]. split; [exact Hc1|].
    split; [discriminate|].
    intros text' m' _ _ _ Htrans _. destruct (Hok Htrans) as [x Hx]. discriminate Hx.
  - rewrite (bind_hang _ _ _ _ E1).
    exists k, [], st1, Hang, job1. rewrite app_nil_r.
    split; [reflexivity|]. split; [exact Hj1|]. split; [exact Ht1|].
    split; [exact Hs1|]. split; [exact Ho1|]. split; [exact Htr1|].
    split; [exact Hk|]. split; [now left|]. split; [exact Hc1|].
    split; [discriminate|].
    intros text' m' _ _ _ Htrans _. destruct (Hok Htrans) as [x Hx]. discriminate Hx.
Qed.

(** ** The runner on a job that was just created *)

Lemma view_starting job :
  tracked job ->
  view_of (update_fields [("status", VStr "running"); ("progress", VFloat (1 # 100));
                          ("message", VStr "Starting")] job) = starting_view.
Proof.
  intros ([a Ha] & [b Hb] & [c Hc] & _). unfold view_of, starting_view.
  rewrite !update_fields_lookup, Ha, Hb, Hc. reflexivity.
Qed.

Lemma view_done job out :
  tracked job ->
  view_of (update_fields [("status", VStr "done"); ("progress", VFloat 1);
                          ("message", VStr "Done"); ("output_path", VStr out)] job)
  = final_view "done" "Done".
Proof.
  intros ([a Ha] & [b Hb] & [c Hc] & _). unfold view_of, final_view.
  rewrite !update_fields_lookup, Ha, Hb, Hc. reflexivity.
Qed.

Lemma view_error job tb :
  tracked job ->
  view_of (update_fields [("status", VStr "error"); ("message", VStr tb);
                          ("progress", VFloat 1)] job)
  = final_view "error" tb.
Proof.
  intros ([a Ha] & [b Hb] & [c Hc] & _). unfold view_of, final_view.
  rewrite !update_fields_lookup, Ha, Hb, Hc. reflexivity.
Qed.

Lemma output_path_done job out :
  tracked job ->
  update_fields [("status", VStr "done"); ("progress", VFloat 1);
                 ("message", VStr "Done"); ("output_path", VStr out)] job
    !! "output_path" = Some (VStr out).
Proof.
  intros (_ & _ & _ & [d Hd]). rewrite update_fields_lookup, Hd. reflexivity.
Qed.

Lemma mk_job_not_empty job_id status progress message file_path source_lang
      target_lang output_path :
  mk_job job_id status progress message file_path source_lang target_lang
         output_path <> ∅.
Proof.
  intros H. apply (f_equal (fun m : Job => m !! "job_id")) in H.
  unfold mk_job in H. rewrite lookup_insert_eq, lookup_empty in H. discriminate H.
Qed.

Lemma run_unfold env job_id file_path target_lang source_lang s :
  run env job_id (started job_id file_path target_lang source_lang s) =
  try_except (run_body env job_id file_path target_lang source_lang)
             (run_handler job_id)
             (started job_id file_path target_lang source_lang s).
Proof.
  unfold run, started, create. cbn [snd].
  set (job0 := mk_job job_id "queued" 0 "Queued" file_path source_lang target_lang None).
  set (st0 := {| store := _; log := [] |}).
  unfold bind at 1. unfold get at 1. unfold Jobs.get. cbn [store _jobs st0].
  rewrite lookup_insert_eq.
  rewrite bool_decide_eq_false_2 by apply mk_job_not_empty.
  unfold run_body, try_except.
  unfold job0. destruct source_lang; reflexivity.
Qed.

Lemma trail_after_update st job_id job kwargs :
  job_at st job_id job ->
  trail (log (after_update job_id kwargs st)) =
  trail (log st) ++ [view_of (update_fields kwargs job)].
Proof. intros H. now rewrite (log_after_update _ _ _ _ H), trail_app. Qed.

Lemma translator_calls_after_update st job_id job kwargs :
  job_at st job_id job ->
  translator_calls (log (after_update job_id kwargs st)) = translator_calls (log st).
Proof.
  intros H. rewrite (log_after_update _ _ _ _ H), translator_calls_app. simpl.
  apply app_nil_r.
Qed.

Lemma try_ok {A} (body : M A) handler st a st' :
  body st = (Ok a, st') -> try_except body handler st = (Ok a, st').
Proof. intros H. unfold try_except. now rewrite H. Qed.

Lemma try_raise {A} (body : M A) handler st e st' :
  body st = (Raise e, st') -> try_except body handler st = handler e st'.
Proof. intros H. unfold try_except. now rewrite H. Qed.

Lemma try_hang {A} (body : M A) handler st st' :
  body st = (Hang, st') -> try_except body handler st = (Hang, st').
Proof. intros H. unfold try_except. now rewrite H. Qed.

Lemma bind_output_path {B} job_id (k : string -> M B) st :
  bind (output_path_for job_id) k st = k (Jobs.output_path_for job_id (store st)) st.
Proof. reflexivity. Qed.

Lemma status_starting job :
  tracked job ->
  update_fields [("status", VStr "running"); ("progress", VFloat (1 # 100));
                 ("message", VStr "Starting")] job !! "status" = running.
Proof. intros ([a Ha] & _). rewrite update_fields_lookup, Ha. reflexivity. Qed.

(** What polling can see of the run of a job made by [create], however
    the run ends: the view left by the 'Starting' update, then the views
    left for the chunks that were announced, then those of the writing step
    and of the final report when they were reached, and last the view left
    by the update that ends the job, unless the run never ends. *)
Lemma run_created env job_id file_path target_lang source_lang s :
  let n := chunk_count env file_path in
  let st0 := started job_id file_path target_lang source_lang s in
  exists k tail fin st' r,
    run env job_id st0 = (r, st') /\
    trail (log st') =
      starting_view ::
      map (chunk_view running (Nat.max 1 n)) (seq 0 k) ++ tail ++ fin /\
    (k <= n)%nat /\
    (tail = [] \/
     k = n /\ (tail = [writing_view running] \/
               tail = [writing_view running; done_view running])) /\
    (fin = [] \/ fin = [final_view "done" "Done"] \/
     exists tb, fin = [final_view "error" tb]) /\
    translator_calls (log st') = firstn k (chunks_of env file_path) /\
    (forall text m,
       Readers.extract_text (files env) file_path = Ok text ->
       max_chars env = Ok m -> 1 <= m ->
       use_openai env = false \/ translation_succeeds env ->
       writer_succeeds env ->
       r = Ok tt /\
       tail = [writing_view running; done_view running] /\
       fin = [final_view "done" "Done"] /\
       exists job',
         _jobs (store st') !! job_id = Some job' /\
         view_of job' = final_view "done" "Done" /\
         job' !! "output_path" =
           Some (VStr (Jobs.output_path_for job_id (store st0)))).
Proof.
  intros n st0.
  rewrite (run_unfold env job_id file_path target_lang source_lang s
           : run env job_id st0 = _).
  fold st0.
  set (job0 := mk_job job_id "queued" 0 "Queued" file_path source_lang target_lang None).
  assert (Hj0 : job_at st0 job_id job0) by apply lookup_insert_eq.
  assert (Ht0 : tracked job0) by apply tracked_mk_job.
  set (kwS := [("status", VStr "running"); ("progress", VFloat (1 # 100));
               ("message", VStr "Starting")]).
  set (st1 := after_update job_id kwS st0).
  set (job1 := update_fields kwS job0).
  assert (Hj1 : job_at st1 job_id job1) by now apply job_at_after_update.
  assert (Ht1 : tracked job1) by now apply tracked_update_fields.
  assert (Hs1 : job1 !! "status" = running) by now apply status_starting.
  assert (Htr1 : trail (log st1) = [starting_view]).
  { unfold st1. rewrite (trail_after_update _ _ _ _ Hj0).
    unfold kwS. now rewrite view_starting. }
  assert (Hc1 : translator_calls (log st1) = []).
  { unfold st1. now rewrite (translator_calls_after_update _ _ _ _ Hj0). }
  assert (Ho1 : output_dir (store st1) = output_dir (store st0))
    by apply update_output_dir.
  set (out := Jobs.output_path_for job_id (store st1)).
  assert (Hout : out = Jobs.output_path_for job_id (store st0)).
  { unfold out, Jobs.output_path_for. now rewrite Ho1. }
  destruct (pipeline_run env file_path source_lang target_lang out job_id
                         st1 job1 Hj1 Ht1)
    as (k & tail & st2 & r & job2 & E & Hj2 & Ht2 & Hs2 & Ho2 & Htr2 & Hk & Htail
        & Hc2 & Hrt & Hsucc).
  fold n in Htr2, Hk, Htail. rewrite Hs1 in Htr2, Htail, Hrt.
  rewrite Htr1 in Htr2. rewrite Hc1 in Hc2. simpl in Htr2, Hc2.
  assert (Hbody :
            run_body env job_id file_path target_lang source_lang st0 =
            bind (translate_file_to_docx env file_path source_lang target_lang
                                         out (Some (on_progress job_id)))
                 (fun _ => update job_id [("status", VStr "done");
                                          ("progress", VFloat 1);
                                          ("message", VStr "Done");
                                          ("output_path", VStr out)]) st1)
    by reflexivity.
  destruct r as [[]|e|].
  - rewrite (bind_ok _ _ _ _ _ E), update_run in Hbody.
    set (kwD := [("status", VStr "done"); ("progress", VFloat 1);
                 ("message", VStr "Done"); ("output_path", VStr out)]) in *.
    exists k, tail, [final_view "done" "Done"], (after_update job_id kwD st2), (Ok tt).
    split; [now apply try_ok|].
    split.
    { rewrite (trail_after_update _ _ _ _ Hj2), Htr2.
      unfold kwD. rewrite view_done by exact Ht2.
      simpl. now rewrite <- !app_assoc. }
    split; [exact Hk|]. split; [exact Htail|]. split; [right; now left|].
    split.
    { now rewrite (translator_calls_after_update _ _ _ _ Hj2), Hc2. }
    intros text m H1 H2 H3 H4 H5.
    split; [reflexivity|]. split; [now apply Hrt|]. split; [reflexivity|].
    exists (update_fields kwD job2).
    split; [now apply job_at_after_update|].
    split; [now apply view_done|].
    rewrite <- Hout. now apply output_path_done.
  - rewrite (bind_raise _ _ _ _ _ E) in Hbody.
    set (kwE := [("status", VStr "error"); ("message", VStr (format_exc e));
                 ("progress", VFloat 1)]).
    exists k, tail, [final_view "error" (format_exc e)],
           (after_update job_id kwE st2), (Ok tt).
    split; [rewrite (try_raise _ _ _ _ _ Hbody); reflexivity|].
    split.
    { rewrite (trail_after_update _ _ _ _ Hj2), Htr2.
      unfold kwE. rewrite view_error by exact Ht2.
      simpl. now rewrite <- !app_assoc. }
    split; [exact Hk|]. split; [exact Htail|]. split; [right; right; eauto|].
    split.
    { now rewrite (translator_calls_after_update _ _ _ _ Hj2), Hc2. }
    intros text m H1 H2 H3 H4 H5.
    specialize (Hsucc text m H1 H2 H3 H4 H5). discriminate Hsucc.
  - rewrite (bind_hang _ _ _ _ E) in Hbody.
    exists k, tail, [], st2, Hang.
    split; [now apply try_hang|].
    split; [now rewrite app_nil_r|].
    split; [exact Hk|]. split; [exact Htail|]. split; [now left|].
    split; [exact Hc2|].
    intros text m H1 H2 H3 H4 H5.
    specialize (Hsucc text m H1 H2 H3 H4 H5). discriminate Hsucc.
Qed.

(** ** Progress while the job is running *)

Ltac case_qle a b :=
  let E := fresh "E" in
  destruct (Qle_bool a b) eqn:E;
  [apply Qle_bool_iff in E
  |assert (b < a)%Q
     by (apply Qnot_le_lt; intros F; apply Qle_bool_iff in F; congruence);
   clear E].

Lemma clamp_mono p q : (p <= q)%Q -> (clamp p <= clamp q)%Q.
Proof.
  intros H. unfold clamp, py_max, py_min.
  case_qle 1%Q p; case_qle 1%Q q;
    repeat match goal with
           | |- context [Qle_bool ?a ?b] => case_qle a b
           end; lra.
Qed.

Lemma fraction_mono i total : (fraction i total <= fraction (S i) total)%Q.
Proof.
  unfold fraction, Qdiv. apply Qmult_le_compat_r.
  - rewrite <- Zle_Qle. lia.
  - apply Qinv_le_0_compat. replace 0%Q with (inject_Z 0) by reflexivity.
    rewrite <- Zle_Qle. lia.
Qed.

Lemma last_fraction n :
  (1 <= n <= 20)%nat -> (fraction (n - 1) (Nat.max 1 n) <= 95 # 100)%Q.
Proof.
  intros H.
  do 21 (destruct n as [|n]; [try lia; vm_compute; discriminate|]). lia.
Qed.

Lemma filter_all_true {A} (f : A -> bool) l :
  Forall (fun x => f x = true) l -> List.filter f l = l.
Proof.
  induction 1 as [|x l Hx _ IH]; [reflexivity|]. simpl. now rewrite Hx, IH.
Qed.

(** The views of a run in which the job is running: all but the last. *)
Lemma running_trail_created env job_id file_path target_lang source_lang s :
  let n := chunk_count env file_path in
  exists k tail,
    running_trail (log (run env job_id
                            (started job_id file_path target_lang source_lang s)).2) =
      starting_view :: map (chunk_view running (Nat.max 1 n)) (seq 0 k) ++ tail /\
    (k <= n)%nat /\
    (tail = [] \/
     k = n /\ (tail = [writing_view running] \/
               tail = [writing_view running; done_view running])).
Proof.
  intros n.
  destruct (run_created env job_id file_path target_lang source_lang s)
    as (k & tail & fin & st' & r & E & Htr & Hk & Htail & Hfin & _).
  exists k, tail. split; [|split; assumption].
  rewrite E. cbn [snd]. unfold running_trail. rewrite Htr.
  change (starting_view :: ?l) with ([starting_view] ++ l).
  rewrite !List.filter_app.
  assert (H1 : List.filter (has_status "running")
                 (map (chunk_view running (Nat.max 1 n)) (seq 0 k)) =
               map (chunk_view running (Nat.max 1 n)) (seq 0 k)).
  { apply filter_all_true, Forall_map, Forall_forall. reflexivity. }
  assert (H2 : List.filter (has_status "running") tail = tail).
  { destruct Htail as [->|[_ [->| ->]]]; reflexivity. }
  assert (H3 : List.filter (has_status "running") fin = []).
  { destruct Hfin as [->|[->|[tb ->]]]; reflexivity. }
  fold n. rewrite H1, H2, H3, app_nil_r. reflexivity.
Qed.

Lemma step_chunks n total i :
  step_ok 20 n (chunk_view running total i) (chunk_view running total (S i)).
Proof.
  right. right. unfold progress_le, chunk_view, progress_view. simpl.
  apply clamp_mono, fraction_mono.
Qed.

Lemma step_writing_done n :
  step_ok 20 n (writing_view running) (done_view running).
Proof. right. right. vm_compute. discriminate. Qed.

Lemma step_last_chunk n i :
  S i = n ->
  step_ok 20 n (chunk_view running (Nat.max 1 n) i) (writing_view running).
Proof.
  intros H. destruct (le_lt_dec n 20) as [Hle|Hgt].
  - right. right. unfold progress_le, chunk_view, writing_view, progress_view. simpl.
    apply clamp_mono. replace i with (n - 1)%nat by lia.
    apply last_fraction. lia.
  - right. left. split; [reflexivity|exact Hgt].
Qed.

Lemma adjacent_tail n tail :
  tail = [] \/ tail = [writing_view running] \/
  tail = [writing_view running; done_view running] ->
  adjacent (step_ok 20 n) tail.
Proof.
  intros [->|[->| ->]]; simpl; auto. split; [apply step_writing_done|exact I].
Qed.

Lemma adjacent_chunks n tail k : forall i,
  (tail = [] \/
   (i + k)%nat = n /\ (tail = [writing_view running] \/
                       tail = [writing_view running; done_view running])) ->
  adjacent (step_ok 20 n)
           (map (chunk_view running (Nat.max 1 n)) (seq i k) ++ tail).
Proof.
  induction k as [|k IH]; intros i Htail.
  - simpl. apply adjacent_tail. tauto.
  - assert (Hrest : adjacent (step_ok 20 n)
                      (map (chunk_view running (Nat.max 1 n)) (seq (S i) k) ++ tail)).
    { apply IH. destruct Htail as [H|[H1 H2]]; [now left|right]. split; [lia|exact H2]. }
    simpl seq. simpl map.
    change ((?x :: ?l) ++ tail) with (x :: (l ++ tail)).
    simpl adjacent.
    destruct (map (chunk_view running (Nat.max 1 n)) (seq (S i) k) ++ tail)
      as [|b rest] eqn:E; [exact I|].
    split; [|exact Hrest].
    destruct k as [|k].
    + simpl in E. subst tail.
      destruct Htail as [H|[H1 [H2|H2]]]; try discriminate H;
        injection H2 as -> _; apply step_last_chunk; lia.
    + simpl in E. injection E as <- _. apply step_chunks.
Qed.

(** C2, as the code has it.  In the run of a job, take the successive
    states of the job in which its status is 'running'.  From each to the
    next the stored progress does not go down, with two exceptions: the
    update that follows the runner's 'Starting' update (the pipeline's first
    report stores [0 / total] over the runner's 0.01), and, when the text has
    more than 20 chunks, the 'Writing Word document' update (it stores 0.95
    over [(total - 1) / total]). *)
Theorem progress_while_running (env : Env) (job_id file_path target_lang : string)
        (source_lang : option string) (s : JobStore) :
  adjacent (step_ok 20 (chunk_count env file_path))
           (running_trail
              (log (run env job_id
                        (started job_id file_path target_lang source_lang s)).2)).
Proof.
  destruct (running_trail_created env job_id file_path target_lang source_lang s)
    as (k & tail & -> & Hk & Htail).
  set (n := chunk_count env file_path) in *.
  pose proof (adjacent_chunks n tail k 0%nat) as H.
  simpl adjacent.
  destruct (map (chunk_view running (Nat.max 1 n)) (seq 0 k) ++ tail) as [|b rest];
    [exact I|].
  split; [left; reflexivity|]. apply H.
  destruct Htail as [Ht|[Hkn Ht]]; [now left|right]. split; [lia|exact Ht].
Qed.

(** C2 as it is worded fails twice.  On a one-chunk text the state left
    by the 'Starting' update has progress 0.01 and the next state, still
    'running', has progress 0.0.  On a text of 21 chunks the state left for
    the last chunk has progress 20/21 and the next state, left by the
    'Writing Word document' update, has progress 0.95. *)
Lemma progress_while_running_counterexample :
  let st1 := (run (sample_env "a" None) "j1"
                  (started "j1" "in.txt" "ko" None sample_store)).2 in
  let st2 := (run (sample_env "abcdefghijklmnopqrstu" (Some 1)) "j1"
                  (started "j1" "in.txt" "ko" None sample_store)).2 in
  (exists a b rest,
     running_trail (log st1) = a :: b :: rest /\ progress_drops a b) /\
  (exists pre a b rest,
     running_trail (log st2) = pre ++ a :: b :: rest /\ progress_drops a b).
Proof.
  intros st1 st2. split.
  - exists starting_view, (chunk_view running 1 0),
           [writing_view running; done_view running].
    split; vm_compute; reflexivity.
  - exists (starting_view :: map (chunk_view running 21) (seq 0 20)),
           (chunk_view running 21 20), (writing_view running),
           [done_view running].
    split; vm_compute; reflexivity.
Qed.

(** ** Files of an unsupported type *)





(** ** Empty text *)

Lemma split_text_empty max_chars : _split_text EmptyString max_chars = Some [].
Proof. reflexivity. Qed.

Lemma documents_after_update st job_id job kwargs :
  job_at st job_id job ->
  documents (log (after_update job_id kwargs st)) = documents (log st).
Proof.
  intros H. rewrite (log_after_update _ _ _ _ H), documents_app. simpl.
  apply app_nil_r.
Qed.

(** The pipeline on a file whose text is empty: no chunk, no translation,
    one document written from the empty text. *)
Lemma pipeline_empty env file_path sl tl out job_id st job m :
  job_at st job_id job -> tracked job ->
  Readers.extract_text (files env) file_path = Ok EmptyString ->
  max_chars env = Ok m ->
  write_docx env EmptyString out = Ok tt ->
  exists st' job',
    translate_file_to_docx env file_path sl tl out (Some (on_progress job_id)) st
      = (Ok tt, st') /\
    job_at st' job_id job' /\ tracked job' /\
    translator_calls (log st') = translator_calls (log st) /\
    documents (log st') = documents (log st) ++ [(EmptyString, out)].
Proof.
  intros Hj Ht Hext Hmax Hw. unfold translate_file_to_docx.
  rewrite Hext, bind_lift_ok, Hmax, bind_lift_ok, split_text_empty.
  simpl translate_chunks. rewrite bind_ret. simpl join. unfold report.
  destruct (on_progress_run job_id (95 # 100) "Writing Word document" st job Hj Ht)
    as (st2 & job2 & E2 & Hj2 & Ht2 & _ & _ & _ & Hc2 & Hd2).
  rewrite (bind_ok _ _ _ _ _ E2), bind_emit, Hw, bind_lift_ok.
  set (st3 := after_emit (EvWrite EmptyString out) st2).
  assert (Hj3 : job_at st3 job_id job2) by exact Hj2.
  destruct (on_progress_run job_id 1 "Done" st3 job2 Hj3 Ht2)
    as (st4 & job4 & E4 & Hj4 & Ht4 & _ & _ & _ & Hc4 & Hd4).
  exists st4, job4. split; [exact E4|]. split; [exact Hj4|]. split; [exact Ht4|].
  split.
  - rewrite Hc4. unfold st3, after_emit. simpl.
    rewrite translator_calls_app, Hc2. simpl. apply app_nil_r.
  - rewrite Hd4. unfold st3, after_emit. simpl.
    rewrite documents_app, Hd2. reflexivity.
Qed.

(** C9.  The splitter returns no chunk at all for the empty text,
    whatever [max_chars] is.  A job whose file has an empty text therefore
    calls no translation function; it still hands the (empty) text to the
    document writer and, when the writer returns, ends as 'done'. *)
Theorem empty_text_job (env : Env) (job_id file_path target_lang : string)
        (source_lang : option string) (s : JobStore) (m : Z) :
  let st0 := started job_id file_path target_lang source_lang s in
  let out := Jobs.output_path_for job_id (store st0) in
  Readers.extract_text (files env) file_path = Ok EmptyString ->
  max_chars env = Ok m ->
  write_docx env EmptyString out = Ok tt ->
  (forall max_chars, _split_text EmptyString max_chars = Some []) /\
  (run env job_id st0).1 = Ok tt /\
  translator_calls (log (run env job_id st0).2) = [] /\
  documents (log (run env job_id st0).2) = [(EmptyString, out)] /\
  (exists job', Jobs.get job_id (store (run env job_id st0).2) = Some job' /\
                view_of job' = final_view "done" "Done").
Proof.
  intros st0 out Hext Hmax Hw. split; [exact split_text_empty|].
  rewrite (run_unfold env job_id file_path target_lang source_lang s
           : run env job_id st0 = _).
  set (job0 := mk_job job_id "queued" 0 "Queued" file_path source_lang target_lang None).
  assert (Hj0 : job_at st0 job_id job0) by apply lookup_insert_eq.
  assert (Ht0 : tracked job0) by apply tracked_mk_job.
  set (kwS := [("status", VStr "running"); ("progress", VFloat (1 # 100));
               ("message", VStr "Starting")]).
  set (st1 := after_update job_id kwS st0).
  assert (Hj1 : job_at st1 job_id (update_fields kwS job0))
    by now apply job_at_after_update.
  assert (Ht1 : tracked (update_fields kwS job0)) by now apply tracked_update_fields.
  assert (Hout : Jobs.output_path_for job_id (store st1) = out).
  { unfold out, Jobs.output_path_for, st1, after_update. simpl.
    now rewrite update_output_dir. }
  rewrite <- Hout in Hw.
  destruct (pipeline_empty env file_path source_lang target_lang
                           (Jobs.output_path_for job_id (store st1)) job_id st1 _ m
                           Hj1 Ht1 Hext Hmax Hw)
    as (st2 & job2 & E & Hj2 & Ht2 & Hc2 & Hd2).
  set (kwD := [("status", VStr "done"); ("progress", VFloat 1);
               ("message", VStr "Done");
               ("output_path", VStr (Jobs.output_path_for job_id (store st1)))]).
  assert (Hbody :
            run_body env job_id file_path target_lang source_lang st0 =
            (Ok tt, after_update job_id kwD st2)).
  { transitivity
      (bind (translate_file_to_docx env file_path source_lang target_lang
               (Jobs.output_path_for job_id (store st1)) (Some (on_progress job_id)))
            (fun _ => update job_id kwD) st1); [reflexivity|].
    now rewrite (bind_ok _ _ _ _ _ E). }
  rewrite (try_ok _ _ _ _ _ Hbody). cbn [fst snd].
  split; [reflexivity|]. split; [|split].
  - rewrite (translator_calls_after_update _ _ _ _ Hj2), Hc2.
    unfold st1. now rewrite (translator_calls_after_update _ _ _ _ Hj0).
  - rewrite (documents_after_update _ _ _ _ Hj2), Hd2, Hout.
    unfold st1. rewrite (documents_after_update _ _ _ _ Hj0). reflexivity.
  - exists (update_fields kwD job2). split; [now apply job_at_after_update|].
    now apply view_done.
Qed.

Lemma empty_text_job_witness :
  let env := sample_env EmptyString None in
  let st0 := started "j1" "uploads/empty.txt" "ko" None sample_store in
  (forall max_chars, _split_text EmptyString max_chars = Some []) /\
  (run env "j1" st0).1 = Ok tt /\
  translator_calls (log (run env "j1" st0).2) = [] /\
  documents (log (run env "j1" st0).2) = [(EmptyString, "outputs/j1.docx")] /\
  (exists job', Jobs.get "j1" (store (run env "j1" st0).2) = Some job' /\
                view_of job' = final_view "done" "Done").
Proof.
  intros env st0.
  apply (empty_text_job env "j1" "uploads/empty.txt" "ko" None sample_store 8000);
    reflexivity.
Defined.

End RunFacts.

(* ===================================================================== *)
(** * The splitter: number of chunks, boundaries, stalling                *)
(* ===================================================================== *)

Module SplitterMore.
Import Py Translator PyFacts SplitterSpec SplitterFacts MoreSpec.






(** X2.  For [max_chars <= 0] and a non-empty text the loop of the
    splitter never ends: whatever number of iterations it is given, it has
    not returned. *)
Theorem split_text_stalls (T : string) (max_chars : Z) :
  max_chars <= 0 -> T <> EmptyString ->
  (forall fuel, split_loop fuel T max_chars 0 [] = None) /\
  _split_text T max_chars = None.
Proof.
  intros Hm HT.
  assert (Hlen : 0 < len T).
  { unfold len. destruct T; [contradiction|simpl; lia]. }
  split; [intros fuel|unfold _split_text];
    apply split_loop_never_returns; assumption.
Qed.

Lemma split_text_stalls_witness :
  0 <= 0 /\ "abc" <> EmptyString /\
  (forall fuel, split_loop fuel "abc" 0 0 [] = None) /\
  _split_text "abc" 0 = None.
Proof.
  split; [lia|]. split; [discriminate|].
  apply (split_text_stalls "abc" 0); [lia|discriminate].
Defined.

(** A property of the window cuts that do not reach the end of the text
    holds for every chunk but the last. *)
Lemma split_loop_all_but_last (Q : string -> Prop) text max_chars :
  1 <= max_chars ->
  (forall start, 0 <= start < len text ->
     window_end text max_chars start < len text ->
     Q (slice text start (window_end text max_chars start))) ->
  forall fuel start chunks out,
    0 <= start <= len text ->
    split_loop fuel text max_chars start chunks = Some out ->
    exists new, out = chunks ++ new /\ Forall Q (removelast new).
Proof.
  intros Hm HQ. induction fuel as [|fuel IH]; intros start chunks out Hs E;
    [discriminate E|].
  simpl in E. destruct (Z.ltb_spec start (len text)) as [Hlt|Hge].
  - pose proof (window_end_bounds text max_chars start Hm (conj (proj1 Hs) Hlt))
      as Hw.
    unfold window_limit in Hw.
    set (e := window_end text max_chars start) in *.
    destruct (IH e (chunks ++ [slice text start e]) out) as (new & -> & Hnew);
      [lia|exact E|].
    exists (slice text start e :: new). split; [now rewrite <- app_assoc|].
    destruct new as [|c new]; [constructor|].
    change (removelast (slice text start e :: c :: new))
      with (slice text start e :: removelast (c :: new)).
    constructor; [|exact Hnew].
    apply HQ; [lia|]. fold e.
    destruct (Z.ltb_spec e (len text)) as [He|He]; [exact He|exfalso].
    destruct fuel as [|fuel]; [discriminate E|]. simpl in E.
    destruct (Z.ltb_spec e (len text)); [lia|].
    injection E as E. apply (f_equal (@length string)) in E.
    rewrite !length_app in E. simpl in E. lia.
  - injection E as <-. exists []. split; [now rewrite app_nil_r|constructor].
Qed.





(** The cut of a window, when there is one, sits on a newline or on a
    period. *)
Lemma find_cut_char text a b :
  0 <= a <= b -> b <= len text ->
  find_cut text a b = -1 \/
  (a <= find_cut text a b < b /\
   (occurs_at newline text (Z.to_nat (find_cut text a b)) = true \/
    occurs_at period_space text (Z.to_nat (find_cut text a b)) = true)).
Proof.
  intros Ha Hb. unfold find_cut.
  destruct (rfind_spec text newline a b Ha Hb) as [[E _]|(L1 & L2 & L3 & _)];
    [rewrite len_newline; lia| |].
  - rewrite E. simpl.
    destruct (rfind_spec text period_space a b Ha Hb) as [[F _]|(L1 & L2 & L3 & _)];
      [rewrite len_period_space; lia|now left|].
    rewrite len_period_space in L2. right. split; [lia|now right].
  - rewrite len_newline in L2.
    destruct (Z.eqb_spec (rfind text newline a b) (-1)); [lia|].
    right. split; [lia|now left].
Qed.



Lemma find_cut_absent text a b :
  0 <= a <= b -> b <= len text ->
  absent newline text -> absent period_space text ->
  find_cut text a b = -1.
Proof.
  intros Ha Hb Hn Hp.
  destruct (find_cut_char text a b Ha Hb) as [C|(_ & [C|C])]; [exact C| |].
  - rewrite Hn in C. discriminate C.
  - rewrite Hp in C. discriminate C.
Qed.

(** X4.  A text that contains no newline and no period followed by a space
    is cut into blocks of exactly [max_chars] characters, the last chunk
    taking what is left. *)
Theorem split_text_hard_cuts (T : string) (max_chars : Z) :
  1 <= max_chars ->
  absent newline T -> absent period_space T ->
  exists chunks,
    _split_text T max_chars = Some chunks /\
    Forall (fun c => len c = max_chars) (removelast chunks) /\
    Forall (fun c => 1 <= len c <= max_chars) chunks.
Proof.
  intros Hm Hn Hp. destruct (split_text_spec T max_chars Hm) as (chunks & E & _ & F).
  exists chunks. split; [exact E|]. split; [|exact F].
  destruct (split_loop_all_but_last (fun c => len c = max_chars) T max_chars Hm)
    with (fuel := S (String.length T)) (start := 0) (chunks := @nil string)
         (out := chunks) as (new & -> & H); [|unfold len; lia|exact E|exact H].
  intros start Hs. unfold window_end.
  set (l := Z.min (len T) (start + max_chars)).
  rewrite find_cut_absent by (try assumption; unfold l; lia).
  simpl. intros He. rewrite length_slice by (unfold l in *; lia). lia.
Qed.

Lemma contains_drop c i : forall s, contains c s = false -> contains c (drop i s) = false.
Proof.
  induction i as [|i IH]; intros [|d r] H; try reflexivity; [exact H|].
  simpl in H. apply orb_false_iff in H as [_ H]. simpl. now apply IH.
Qed.

(** A string whose first character is not in the text is absent from it. *)
Lemma absent_of_contains c sub text :
  contains c text = false -> absent (String c sub) text.
Proof.
  intros H i. unfold occurs_at. pose proof (contains_drop c i text H) as Hd.
  destruct (drop i text) as [|d r]; [reflexivity|]. simpl in *.
  apply orb_false_iff in Hd as [Hd _]. rewrite Ascii.eqb_sym in Hd. now rewrite Hd.
Qed.

Lemma split_text_hard_cuts_witness :
  1 <= 4 /\ absent newline "abcdefghij" /\ absent period_space "abcdefghij" /\
  exists chunks,
    _split_text "abcdefghij" 4 = Some chunks /\
    Forall (fun c => len c = 4) (removelast chunks) /\
    Forall (fun c => 1 <= len c <= 4) chunks.
Proof.
  assert (H1 : absent newline "abcdefghij") by (apply absent_of_contains; reflexivity).
  assert (H2 : absent period_space "abcdefghij") by (apply absent_of_contains; reflexivity).
  split; [lia|]. split; [exact H1|]. split; [exact H2|].
  apply (split_text_hard_cuts "abcdefghij" 4); [lia|exact H1|exact H2].
Defined.

End SplitterMore.

(* ===================================================================== *)
(** * The job registry: creation, repeated updates, output paths          *)
(* ===================================================================== *)

Module JobsMore.
Import Py Jobs JobsFacts.

(** X5.  [create] registers under [job_id] a job that [get] shows as
    'queued', with progress 0.0, the message 'Queued', the path and the
    languages it was given and no output path; what [get] shows of every
    other job id is as before. *)
Theorem create_then_get (job_id file_path target_lang : string)
        (source_lang : option string) (s : JobStore) :
  let s' := (create job_id file_path target_lang source_lang s).2 in
  (create job_id file_path target_lang source_lang s).1 = job_id /\
  (exists job,
     get job_id s' = Some job /\
     job !! "job_id" = Some (VStr job_id) /\
     job !! "status" = Some (VStr "queued") /\
     job !! "progress" = Some (VFloat 0) /\
     job !! "message" = Some (VStr "Queued") /\
     job !! "file_path" = Some (VStr file_path) /\
     job !! "source_lang" = Some (of_optional source_lang) /\
     job !! "target_lang" = Some (VStr target_lang) /\
     job !! "output_path" = Some VNone) /\
  (forall other, other <> job_id -> get other s' = get other s).
Proof.
  intros s'. split; [reflexivity|]. split.
  - eexists. split; [apply lookup_insert_eq|]. repeat split; reflexivity.
  - intros other H. unfold get, s', create. simpl. apply lookup_insert_ne. congruence.
Qed.

Lemma update_fields_idem kwargs (job : Job) :
  update_fields kwargs (update_fields kwargs job) = update_fields kwargs job.
Proof.
  apply map_eq. intros k. rewrite !update_fields_lookup.
  destruct (job !! k) as [old|]; [|reflexivity].
  now destruct (named k kwargs).
Qed.

(** X6.  Repeating an update changes nothing: the registry after two
    identical calls of [update] is the registry after one. *)
Theorem update_idempotent (job_id : string) (kwargs : list (string * value))
        (s : JobStore) :
  update job_id kwargs (update job_id kwargs s) = update job_id kwargs s.
Proof.
  destruct (_jobs s !! job_id) as [job|] eqn:E.
  - assert (E1 : update job_id kwargs s =
                 {| _jobs := <[job_id := update_fields kwargs job]> (_jobs s);
                    output_dir := output_dir s |})
      by (unfold update; now rewrite E).
    rewrite E1. unfold update. cbn [_jobs output_dir].
    rewrite lookup_insert_eq, insert_insert_eq, update_fields_idem. reflexivity.
  - assert (E1 : update job_id kwargs s = s) by (unfold update; now rewrite E).
    now rewrite !E1.
Qed.

(** X7.  Two job ids without a path separator (such as the hexadecimal
    ids [create] is given) never share an output path: [output_path_for] is
    injective on them. *)
Theorem output_path_for_inj (a b : string) (s : JobStore) :
  MoreSpec.contains "/"%char a = false -> MoreSpec.contains "/"%char b = false ->
  output_path_for a s = output_path_for b s -> a = b.
Proof.
  unfold output_path_for. intros _ _ H.
  apply (inj (String.app (output_dir s))) in H.
  apply (inj (String.app "/")) in H.
  now apply MainFacts.app_inj_r in H.
Qed.

Lemma output_path_for_inj_witness :
  MoreSpec.contains "/"%char "j1" = false /\
  output_path_for "j1" RunSpec.sample_store = output_path_for "j1" RunSpec.sample_store /\
  "j1" = "j1".
Proof.
  split; [reflexivity|]. split; [reflexivity|].
  apply (output_path_for_inj "j1" "j1" RunSpec.sample_store); reflexivity.
Defined.

End JobsMore.

(* ===================================================================== *)
(** * Chunked upload: names, sessions, retries                            *)
(* ===================================================================== *)

Module MainMore.
Import Py Main PyFacts MainFacts MoreSpec.

(** X8.  Two chunk indices are stored under the same file name only if
    they are the same index, negative indices and indices of more than
    eight digits included, and no index is stored under the name of the
    file that holds the declared file name. *)
Theorem part_names_distinct (i j : Z) :
  (part_name i = part_name j <-> i = j) /\ part_name i <> meta_name.
Proof.
  split; [split|].
  - apply part_name_inj.
  - now intros ->.
  - apply part_name_not_meta.
Qed.

Section Session.
Variables (fs : FS) (upload_id : string) (up_dir : gmap string string)
          (meta : string).
Hypothesis known : chunk_dirs fs !! upload_id = Some up_dir.
Hypothesis has_meta : up_dir !! meta_name = Some meta.

Lemma complete_nothing_to_copy total_chunks :
  total_chunks <= 0 ->
  upload_complete upload_id total_chunks fs =
  (Return (upload_id, final_name upload_id meta),
   {| chunk_dirs := delete upload_id (chunk_dirs fs);
      upload_files := <[final_name upload_id meta := EmptyString]> (upload_files fs) |}).
Proof.
  intros H. unfold upload_complete.
  rewrite (complete_all_present fs upload_id up_dir meta known has_meta).
  - unfold range. now rewrite seqZ_nil.
  - intros i Hi. lia.
Qed.

(** When the call does not end normally the chunk directories are as
    they were. *)
Lemma complete_failed_keeps_dirs fault total_chunks :
  (forall a, (upload_complete_io fault upload_id total_chunks fs).1 <> Return a) ->
  chunk_dirs (upload_complete_io fault upload_id total_chunks fs).2 = chunk_dirs fs.
Proof.
  rewrite (complete_unfold fs upload_id up_dir meta known has_meta).
  destruct (copy_parts fault up_dir (range total_chunks) EmptyString)
    as [[[]| |] out]; simpl; try reflexivity.
  intros H. now destruct (H (upload_id, final_name upload_id meta)).
Qed.

End Session.

(** X9.  With [total_chunks <= 0], [upload_complete] on a known session
    succeeds whatever was uploaded: it stores an empty file and removes the
    chunk directory with all the parts in it. *)
Theorem complete_without_chunks (fs : FS) (upload_id : string)
        (up_dir : gmap string string) (meta : string) (total_chunks : Z) :
  chunk_dirs fs !! upload_id = Some up_dir ->
  up_dir !! meta_name = Some meta ->
  total_chunks <= 0 ->
  let r := upload_complete upload_id total_chunks fs in
  r.1 = Return (upload_id, final_name upload_id meta) /\
  upload_files r.2 !! final_name upload_id meta = Some EmptyString /\
  chunk_dirs r.2 !! upload_id = None.
Proof.
  intros Hk Hm Ht r. unfold r.
  rewrite (complete_nothing_to_copy fs upload_id up_dir meta Hk Hm total_chunks Ht).
  simpl. split; [reflexivity|]. split; [apply lookup_insert_eq|apply lookup_delete_eq].
Qed.

Lemma complete_without_chunks_witness :
  let fs := receive_all "u1" [(0, "abc")]
              (upload_init "u1" "doc.txt" {| chunk_dirs := ∅; upload_files := ∅ |}).2 in
  let r := upload_complete "u1" 0 fs in
  r.1 = Return ("u1", "u1_doc.txt") /\
  upload_files r.2 !! "u1_doc.txt" = Some EmptyString /\
  chunk_dirs r.2 !! "u1" = None.
Proof.
  intros fs.
  apply (complete_without_chunks fs "u1"
           (<[part_name 0 := "abc"]> (<[meta_name := "doc.txt"]> ∅)) "doc.txt" 0).
  - vm_compute. reflexivity.
  - vm_compute. reflexivity.
  - lia.
Defined.

(** X10.  A session ends with its successful completion: afterwards a
    further chunk and a further completion for the same upload id are both
    answered with 404 'upload_id not found', and neither changes
    anything. *)
Theorem completed_session_is_gone (fs : FS) (upload_id : string)
        (total_chunks index total_chunks' : Z) (chunk : string) (a : string * string) :
  (upload_complete upload_id total_chunks fs).1 = Return a ->
  let fs' := (upload_complete upload_id total_chunks fs).2 in
  upload_chunk upload_id index chunk fs' =
    (HTTPException 404 "upload_id not found", fs') /\
  upload_complete upload_id total_chunks' fs' =
    (HTTPException 404 "upload_id not found", fs').
Proof.
  intros H fs'.
  assert (Hgone : chunk_dirs fs' !! upload_id = None).
  { unfold fs', upload_complete, upload_complete_io in *.
    destruct (chunk_dirs fs !! upload_id) as [d|]; [|discriminate H].
    destruct (d !! meta_name) as [m|]; [|discriminate H].
    destruct (copy_parts (fun _ => None) d (range total_chunks) EmptyString)
      as [[[]| |] out]; try discriminate H.
    simpl. apply lookup_delete_eq. }
  split.
  - unfold upload_chunk. now rewrite Hgone.
  - unfold upload_complete, upload_complete_io. now rewrite Hgone.
Qed.

Lemma completed_session_is_gone_witness :
  let fs := receive_all "u1" [(0, "abc")]
              (upload_init "u1" "doc.txt" {| chunk_dirs := ∅; upload_files := ∅ |}).2 in
  let fs' := (upload_complete "u1" 1 fs).2 in
  (upload_complete "u1" 1 fs).1 = Return ("u1", "u1_doc.txt") /\
  upload_chunk "u1" 0 "abc" fs' = (HTTPException 404 "upload_id not found", fs') /\
  upload_complete "u1" 1 fs' = (HTTPException 404 "upload_id not found", fs').
Proof.
  intros fs fs'.
  assert (H : (upload_complete "u1" 1 fs).1 = Return ("u1", "u1_doc.txt"))
    by (vm_compute; reflexivity).
  split; [exact H|].
  exact (completed_session_is_gone fs "u1" 1 0 1 "abc" ("u1", "u1_doc.txt") H).
Defined.

(** X11.  A completion that fails for a missing chunk can be retried: when
    the chunks that arrive afterwards supply every index that was not yet
    stored, the next completion succeeds, and the file holds for each index
    the payload that arrived last for it, or the stored part when none
    arrived. *)
Theorem complete_after_resend (fs : FS) (upload_id : string)
        (up_dir : gmap string string) (meta : string) (total_chunks m : Z)
        (arrivals : list (Z * string)) :
  chunk_dirs fs !! upload_id = Some up_dir ->
  up_dir !! meta_name = Some meta ->
  0 <= m < total_chunks -> up_dir !! part_name m = None ->
  (forall i, 0 <= i < total_chunks ->
     is_Some (final_payload arrivals i) \/ is_Some (up_dir !! part_name i)) ->
  let failed := upload_complete upload_id total_chunks fs in
  let r := upload_complete upload_id total_chunks
                           (receive_all upload_id arrivals failed.2) in
  (forall a, failed.1 <> Return a) /\
  r.1 = Return (upload_id, final_name upload_id meta) /\
  upload_files r.2 !! final_name upload_id meta =
    Some (concat (map (fun i => default (part up_dir i) (final_payload arrivals i))
                      (range total_chunks))).
Proof.
  intros Hk Hm Hmiss Hnone Hall failed r.
  assert (Hfail : forall a, failed.1 <> Return a).
  { intros a Ha. destruct failed as [f1 f2] eqn:Ef. simpl in Ha. subst f1.
    destruct (complete_return fs upload_id up_dir meta Hk Hm (fun _ => None)
                              total_chunks a f2 Ef m Hmiss) as [[d Hd] _].
    congruence. }
  split; [exact Hfail|].
  assert (Hdirs : chunk_dirs failed.2 = chunk_dirs fs)
    by (apply (complete_failed_keeps_dirs fs upload_id up_dir meta Hk Hm); exact Hfail).
  assert (Hk' : chunk_dirs failed.2 !! upload_id = Some up_dir) by now rewrite Hdirs.
  destruct (receive_all_spec upload_id arrivals failed.2 up_dir Hk')
    as (d' & E1 & E2 & E3 & E4).
  rewrite Hm in E3.
  assert (Hpres : forall i, 0 <= i < total_chunks -> present (fun _ => None) d' i).
  { intros i Hi. split; [|reflexivity]. rewrite E4.
    destruct (final_payload arrivals i) as [p|] eqn:Ep; [eauto|].
    destruct (Hall i Hi) as [[p Hp]|H]; [congruence|exact H]. }
  pose proof (complete_all_present _ upload_id d' meta E1 E3 (fun _ => None)
                                   total_chunks Hpres) as Hr.
  unfold r, upload_complete. rewrite Hr. cbn [fst snd upload_files].
  split; [reflexivity|].
  rewrite lookup_insert_eq. f_equal. unfold parts. f_equal.
  apply map_ext. intros i. unfold part. rewrite E4.
  now destruct (final_payload arrivals i).
Qed.

Lemma complete_after_resend_witness :
  let fs := receive_all "u1" [(0, "abc")]
              (upload_init "u1" "doc.txt" {| chunk_dirs := ∅; upload_files := ∅ |}).2 in
  let failed := upload_complete "u1" 2 fs in
  let r := upload_complete "u1" 2 (receive_all "u1" [(1, "def")] failed.2) in
  (forall a, failed.1 <> Return a) /\
  r.1 = Return ("u1", "u1_doc.txt") /\
  upload_files r.2 !! "u1_doc.txt" = Some "abcdef".
Proof.
  intros fs.
  destruct (complete_after_resend fs "u1"
              (<[part_name 0 := "abc"]> (<[meta_name := "doc.txt"]> ∅)) "doc.txt" 2 1
              [(1, "def")]) as (Ha & Hb & Hc).
  - vm_compute. reflexivity.
  - vm_compute. reflexivity.
  - lia.
  - vm_compute. reflexivity.
  - intros i Hi. assert (i = 0 \/ i = 1) as [->| ->] by lia.
    + right. vm_compute. eauto.
    + left. vm_compute. eauto.
  - split; [exact Ha|]. split; [exact Hb|].
    etrans; [exact Hc|]. vm_compute. reflexivity.
Defined.

(** X12.  The endpoints of one upload never touch another.  For upload
    ids that each name one directory entry below [CHUNK_DIR],
    [upload_init], [upload_chunk] and [upload_complete], however the copies
    behave, leave the chunk directory of every other upload id as it was,
    and [upload_init] and [upload_chunk] leave the assembled files alone. *)
Theorem sessions_are_isolated (fs : FS) (upload_id other filename : string)
        (index total_chunks : Z) (chunk : string) (fault : Z -> option nat) :
  entry_name upload_id -> entry_name other -> other <> upload_id ->
  chunk_dirs (upload_init upload_id filename fs).2 !! other = chunk_dirs fs !! other /\
  chunk_dirs (upload_chunk upload_id index chunk fs).2 !! other = chunk_dirs fs !! other /\
  chunk_dirs (upload_complete_io fault upload_id total_chunks fs).2 !! other
    = chunk_dirs fs !! other /\
  upload_files (upload_init upload_id filename fs).2 = upload_files fs /\
  upload_files (upload_chunk upload_id index chunk fs).2 = upload_files fs.
Proof.
  intros _ _ Hne. assert (Hne' : upload_id <> other) by congruence.
  split; [|split; [|split; [|split]]].
  - unfold upload_init. simpl. now apply lookup_insert_ne.
  - unfold upload_chunk. destruct (chunk_dirs fs !! upload_id); [|reflexivity].
    simpl. now apply lookup_insert_ne.
  - unfold upload_complete_io. destruct (chunk_dirs fs !! upload_id) as [d|]; [|reflexivity].
    destruct (d !! meta_name); [|reflexivity].
    destruct (copy_parts fault d (range total_chunks) EmptyString)
      as [[[]| |] out]; simpl; try reflexivity.
    now apply lookup_delete_ne.
  - reflexivity.
  - unfold upload_chunk. now destruct (chunk_dirs fs !! upload_id).
Qed.

Lemma sessions_are_isolated_witness :
  let fs := (upload_init "u2" "other.txt" {| chunk_dirs := ∅; upload_files := ∅ |}).2 in
  chunk_dirs (upload_init "u1" "doc.txt" fs).2 !! "u2" = chunk_dirs fs !! "u2" /\
  chunk_dirs (upload_chunk "u1" 0 "abc" fs).2 !! "u2" = chunk_dirs fs !! "u2" /\
  chunk_dirs (upload_complete_io (fun _ => None) "u1" 1 fs).2 !! "u2"
    = chunk_dirs fs !! "u2" /\
  upload_files (upload_init "u1" "doc.txt" fs).2 = upload_files fs /\
  upload_files (upload_chunk "u1" 0 "abc" fs).2 = upload_files fs.
Proof.
  intros fs.
  apply (sessions_are_isolated fs "u1" "u2" "doc.txt" 0 1 "abc" (fun _ => None)).
  - repeat split; discriminate.
  - repeat split; discriminate.
  - discriminate.
Defined.

Lemma contains_app c s t : contains c (s +:+ t) = contains c s || contains c t.
Proof.
  induction s as [|d s IH]; [reflexivity|].
  rewrite app_cons. simpl. now rewrite IH, orb_assoc.
Qed.

Lemma components_no_slash s : forall cur,
  contains "/"%char cur = false ->
  Forall (fun c => contains "/"%char c = false) (components cur s).
Proof.
  induction s as [|d s IH]; intros cur Hcur; simpl.
  - constructor; [exact Hcur|constructor].
  - destruct (Ascii.eqb_spec d "/"%char) as [->|Hd].
    + constructor; [exact Hcur|]. now apply IH.
    + apply IH. rewrite contains_app, Hcur. simpl.
      apply Ascii.eqb_neq in Hd. now rewrite Hd.
Qed.

Lemma last_Forall {A} (P : A -> Prop) l d : Forall P l -> P d -> P (List.last l d).
Proof.
  induction 1 as [|x l Hx Hl IH]; intros Hd; [exact Hd|].
  destruct l as [|y l]; [exact Hx|]. now apply IH.
Qed.

Lemma path_name_no_slash p : contains "/"%char (path_name p) = false.
Proof.
  unfold path_name. apply last_Forall; [|reflexivity].
  pose proof (components_no_slash p EmptyString eq_refl) as H.
  induction H as [|c l Hc _ IH]; simpl; [constructor|].
  destruct (negb _); [constructor; assumption|assumption].
Qed.

(** X13.  Whatever file name the client declares, the name under which the
    assembled file is stored is the upload id, an underscore and a name
    without any path separator: directories in the declared name are
    dropped. *)
Theorem final_name_is_flat (upload_id meta : string) :
  exists safe_name,
    final_name upload_id meta = upload_id +:+ "_" +:+ safe_name /\
    contains "/"%char safe_name = false.
Proof.
  unfold final_name. eexists. split; [reflexivity|]. apply path_name_no_slash.
Qed.

End MainMore.

(* ===================================================================== *)
(** * The runner: what a run leaves behind                                *)
(* ===================================================================== *)

Module RunMore.
Import Py Jobs Exec Translator Pipeline Process RunSpec MoreSpec.
Import PyFacts SplitterFacts JobsFacts RunFacts.
Local Open Scope run_scope.

(** ** The frame of a run *)

Lemma same_job_refl a : same_job a a.
Proof. destruct a; simpl; auto. Qed.

Lemma same_job_trans a b c : same_job a b -> same_job b c -> same_job a c.
Proof.
  destruct a, b, c; simpl; try tauto.
  intros [H1 H2] [H3 H4]. split; [congruence|].
  intros k Hk. now rewrite H4, H2.
Qed.

Lemma frame_refl job_id st : frame job_id st st.
Proof. repeat split; auto using same_job_refl. Qed.

Lemma frame_trans job_id a b c :
  frame job_id a b -> frame job_id b c -> frame job_id a c.
Proof.
  intros (H1 & H2 & H3) (H4 & H5 & H6). split; [congruence|]. split.
  - intros other Hne. now rewrite H5, H2.
  - eapply same_job_trans; eassumption.
Qed.

Lemma named_absent k kwargs :
  Forall (fun kv : string * value => kv.1 <> k) kwargs -> named k kwargs = None.
Proof.
  induction 1 as [|[k' v] rest Hkv _ IH]; [reflexivity|].
  simpl in *. rewrite IH. now destruct (String.eqb_spec k' k).
Qed.

Lemma same_job_update_fields kwargs job :
  Forall (fun kv : string * value => kv.1 ∈ runner_fields) kwargs ->
  same_job (Some job) (Some (update_fields kwargs job)).
Proof.
  intros H. split.
  - apply set_eq. intros k. rewrite !elem_of_dom, update_fields_lookup.
    destruct (job !! k); [split; eauto|reflexivity].
  - intros k Hk. rewrite update_fields_lookup, named_absent.
    + now destruct (job !! k).
    + eapply Forall_impl; [exact H|]. intros [k' v] Hkv E. simpl in *.
      subst k'. contradiction.
Qed.

Lemma framed_ret {A} job_id (a : A) : framed job_id (ret a).
Proof. intros st. apply frame_refl. Qed.

Lemma framed_lift {A} job_id (r : result A) : framed job_id (lift r).
Proof. intros st. apply frame_refl. Qed.

Lemma framed_raise {A} job_id e : framed job_id (@raise A e).
Proof. intros st. apply frame_refl. Qed.

Lemma framed_emit job_id ev : framed job_id (emit ev).
Proof. intros st. repeat split; auto using same_job_refl. Qed.

Lemma framed_get job_id id : framed job_id (get id).
Proof. intros st. apply frame_refl. Qed.

Lemma framed_output_path job_id id : framed job_id (output_path_for id).
Proof. intros st. apply frame_refl. Qed.

Lemma framed_update job_id kwargs :
  Forall (fun kv : string * value => kv.1 ∈ runner_fields) kwargs ->
  framed job_id (update job_id kwargs).
Proof.
  intros H st. unfold frame, update. cbn [snd store].
  split; [apply update_output_dir|]. split.
  - intros other Hne. now apply update_lookup_ne.
  - destruct (_jobs (store st) !! job_id) as [job|] eqn:E.
    + rewrite (update_lookup _ _ _ kwargs E). now apply same_job_update_fields.
    + unfold Jobs.update. rewrite E, E. exact I.
Qed.

Lemma framed_bind {A B} job_id (c : M A) (k : A -> M B) :
  framed job_id c -> (forall a, framed job_id (k a)) -> framed job_id (bind c k).
Proof.
  intros Hc Hk st. unfold bind. specialize (Hc st).
  destruct (c st) as [[a|e|] st1]; cbn [snd] in *; try exact Hc.
  eapply frame_trans; [exact Hc|apply Hk].
Qed.

Lemma framed_try {A} job_id (body : M A) handler :
  framed job_id body -> (forall e, framed job_id (handler e)) ->
  framed job_id (try_except body handler).
Proof.
  intros Hb Hh st. unfold try_except. specialize (Hb st).
  destruct (body st) as [[a|e|] st1]; cbn [snd] in *; try exact Hb.
  eapply frame_trans; [exact Hb|apply Hh].
Qed.

Ltac fields := unfold runner_fields; repeat constructor.

Lemma framed_on_progress job_id p msg : framed job_id (on_progress job_id p msg).
Proof. apply framed_update. fields. Qed.

Lemma framed_translate_chunks env sl tl total job_id chunks :
  forall i parts,
  framed job_id (translate_chunks env sl tl total (Some (on_progress job_id))
                                  i chunks parts).
Proof.
  induction chunks as [|chunk rest IH]; intros i parts; simpl.
  - apply framed_ret.
  - apply framed_bind; [apply framed_on_progress|]. intros _.
    apply framed_bind; [apply framed_emit|]. intros _.
    apply framed_bind; [|intros out; apply IH].
    destruct (use_openai env); [apply framed_lift|apply framed_ret].
Qed.

Lemma framed_pipeline env file_path sl tl out job_id :
  framed job_id (translate_file_to_docx env file_path sl tl out
                                        (Some (on_progress job_id))).
Proof.
  unfold translate_file_to_docx.
  apply framed_bind; [apply framed_lift|]. intros text.
  apply framed_bind; [apply framed_lift|]. intros m.
  destruct (_split_text text m) as [chunks|]; [|apply framed_lift].
  apply framed_bind; [apply framed_translate_chunks|]. intros parts.
  apply framed_bind; [apply framed_on_progress|]. intros _.
  apply framed_bind; [apply framed_emit|]. intros _.
  apply framed_bind; [apply framed_lift|]. intros _.
  apply framed_on_progress.
Qed.

Lemma framed_run env job_id : framed job_id (run env job_id).
Proof.
  unfold run. apply framed_bind; [apply framed_get|]. intros [job|]; [|apply framed_ret].
  destruct (bool_decide (job = ∅)); [apply framed_ret|].
  apply framed_try.
  - apply framed_bind; [apply framed_update; fields|]. intros _.
    apply framed_bind; [apply framed_output_path|]. intros out.
    apply framed_bind.
    { unfold item_str. destruct (job !! "file_path") as [[]|];
        first [apply framed_ret|apply framed_raise]. }
    intros fp. apply framed_bind.
    { unfold get_optional_str. destruct (job !! "source_lang") as [[]|];
        first [apply framed_ret|apply framed_raise]. }
    intros sl. apply framed_bind.
    { unfold item_str. destruct (job !! "target_lang") as [[]|];
        first [apply framed_ret|apply framed_raise]. }
    intros tl. apply framed_bind; [apply framed_pipeline|]. intros _.
    apply framed_update. fields.
  - intros e. apply framed_update. fields.
Qed.

(** X14.  A run touches only its own job, and of that job only the
    values of [status], [progress], [message] and [output_path]: whatever
    the files, the translator and the writer do and however the run ends,
    the registry holds the same job ids afterwards, every other job is
    unchanged, the job itself has the same attribute names and the same
    [job_id], [file_path], [source_lang] and [target_lang], and the output
    directory is the same. *)
Theorem run_touches_only_its_job (env : Env) (job_id : string) (st : state) :
  let st' := (run env job_id st).2 in
  output_dir (store st') = output_dir (store st) /\
  dom (_jobs (store st')) = dom (_jobs (store st)) /\
  (forall other, other <> job_id ->
     _jobs (store st') !! other = _jobs (store st) !! other) /\
  (forall job, _jobs (store st) !! job_id = Some job ->
     exists job', _jobs (store st') !! job_id = Some job' /\
                  dom job' = dom job /\
                  forall k, k ∉ runner_fields -> job' !! k = job !! k).
Proof.
  intros st'. destruct (framed_run env job_id st) as (H1 & H2 & H3). fold st' in H1, H2, H3.
  split; [exact H1|]. split; [|split; [exact H2|]].
  - apply set_eq. intros k. rewrite !elem_of_dom.
    destruct (decide (k = job_id)) as [->|Hne]; [|now rewrite H2].
    destruct (_jobs (store st) !! job_id), (_jobs (store st') !! job_id);
      simpl in H3; try contradiction; split; eauto.
  - intros job Hj. rewrite Hj in H3.
    destruct (_jobs (store st') !! job_id) as [job'|]; [|contradiction].
    exists job'. destruct H3 as [H3 H4]. auto.
Qed.

(** X15.  No exception leaves [run]: whatever the files, the
    translator and the writer raise, the thread body returns, unless one of
    them never returns. *)
Theorem run_never_raises (env : Env) (job_id : string) (st : state) :
  (run env job_id st).1 = Ok tt \/ (run env job_id st).1 = Hang.
Proof.
  assert (H : forall r, (run env job_id st).1 = r -> r = Ok tt \/ r = Hang).
  { intros r E. unfold run in E. unfold bind at 1 in E. unfold get at 1 in E.
    destruct (Jobs.get job_id (store st)) as [job|]; [|left; now rewrite <- E].
    destruct (bool_decide (job = ∅)); [left; now rewrite <- E|].
    unfold try_except in E.
    match type of E with
    | context [let (_, _) := ?b st in _] => destruct (b st) as [[[]|e|] st1]
    end; rewrite <- E; auto. }
  destruct (H _ eq_refl) as [E|E]; rewrite E; auto.
Qed.

(** ** The job between the updates of a run *)

Lemma at_work_update st job_id s o c d kwargs :
  at_work st job_id s o c d ->
  at_work (after_update job_id kwargs st) job_id
          (default s (named "status" kwargs))
          (default o (named "output_path" kwargs)) c d.
Proof.
  intros [(job & Hj & Ht & Hs & Ho) [Hc Hd]]. split; [|split].
  - exists (update_fields kwargs job). split; [now apply job_at_after_update|].
    split; [now apply tracked_update_fields|].
    rewrite !update_fields_lookup, Hs, Ho. split; reflexivity.
  - now rewrite (translator_calls_after_update _ _ _ _ Hj).
  - now rewrite (documents_after_update _ _ _ _ Hj).
Qed.

Lemma at_work_progress st job_id s o c d p msg :
  at_work st job_id s o c d ->
  at_work (after_update job_id [("progress", VFloat p); ("message", VStr msg)] st)
          job_id s o c d.
Proof. intros H. exact (at_work_update st job_id s o c d _ H). Qed.

Lemma at_work_translate st job_id s o c d chunk :
  at_work st job_id s o c d ->
  at_work (after_emit (EvTranslate chunk) st) job_id s o (c ++ [chunk]) d.
Proof.
  intros [Hj [Hc Hd]]. split; [exact Hj|]. unfold after_emit. cbn [log].
  rewrite translator_calls_app, documents_app, Hc, Hd. simpl.
  now rewrite app_nil_r.
Qed.

Lemma at_work_write st job_id s o c d text path :
  at_work st job_id s o c d ->
  at_work (after_emit (EvWrite text path) st) job_id s o c (d ++ [(text, path)]).
Proof.
  intros [Hj [Hc Hd]]. split; [exact Hj|]. unfold after_emit. cbn [log].
  rewrite translator_calls_app, documents_app, Hc, Hd. simpl.
  now rewrite app_nil_r.
Qed.

Lemma at_work_started job_id file_path target_lang source_lang s :
  at_work (started job_id file_path target_lang source_lang s) job_id
          (VStr "queued") VNone [] [].
Proof.
  split; [|split; reflexivity].
  exists (mk_job job_id "queued" 0 "Queued" file_path source_lang target_lang None).
  split; [apply lookup_insert_eq|]. split; [apply tracked_mk_job|].
  split; reflexivity.
Qed.

(** What [get] and a poll show of a job at work. *)
Lemma at_work_view st job_id s o c d kwargs status message :
  at_work st job_id s o c d ->
  named "status" kwargs = Some (VStr status) ->
  named "progress" kwargs = Some (VFloat 1) ->
  named "message" kwargs = Some (VStr message) ->
  let st' := after_update job_id kwargs st in
  translator_calls (log st') = c /\ documents (log st') = d /\
  exists job', Jobs.get job_id (store st') = Some job' /\
               view_of job' = final_view status message /\
               job' !! "output_path" = Some (default o (named "output_path" kwargs)).
Proof.
  intros [(job & Hj & Ht & Hs & Ho) [Hc Hd]] H1 H2 H3 st'.
  split; [unfold st'; now rewrite (translator_calls_after_update _ _ _ _ Hj)|].
  split; [unfold st'; now rewrite (documents_after_update _ _ _ _ Hj)|].
  exists (update_fields kwargs job). split; [now apply job_at_after_update|].
  destruct Ht as ([a Ha] & [b Hb] & [m Hm] & _). split.
  - unfold view_of, final_view.
    rewrite !update_fields_lookup, Ha, Hb, Hm, H1, H2, H3. reflexivity.
  - now rewrite update_fields_lookup, Ho.
Qed.

(** ** The chunk loop *)

Lemma translate_step {B} env i chunk sl tl (k : string -> M B) st :
  bind (if use_openai env
        then lift (_translate_with_openai env i chunk sl tl)
        else ret (_translate_fallback chunk sl tl)) k st
  = bind (lift (translate env i chunk sl tl)) k st.
Proof. unfold translate. now destruct (use_openai env). Qed.

Lemma chunk_step env sl tl total job_id s o d chunk rest i parts st c :
  at_work st job_id s o c d ->
  exists st1,
    at_work st1 job_id s o (c ++ [chunk]) d /\
    translate_chunks env sl tl total (Some (on_progress job_id)) i (chunk :: rest)
                     parts st
    = bind (lift (translate env i chunk sl tl))
           (fun out => translate_chunks env sl tl total (Some (on_progress job_id))
                                        (S i) rest (parts ++ [out])) st1.
Proof.
  intros Hw. simpl translate_chunks. unfold report, on_progress.
  rewrite bind_update, bind_emit, translate_step.
  eexists. split; [|reflexivity].
  apply at_work_translate, at_work_progress, Hw.
Qed.

Lemma chunks_ok env sl tl total job_id s o d chunks :
  forall outs i parts st c,
  at_work st job_id s o c d -> translated env sl tl i chunks outs ->
  exists st',
    translate_chunks env sl tl total (Some (on_progress job_id)) i chunks parts st
      = (Ok (parts ++ outs), st') /\
    at_work st' job_id s o (c ++ chunks) d.
Proof.
  induction chunks as [|chunk rest IH]; intros outs i parts st c Hw Ht.
  - destruct outs; [|contradiction]. exists st. rewrite !app_nil_r. now split.
  - destruct outs as [|out outs]; [contradiction|]. destruct Ht as [H1 H2].
    destruct (chunk_step env sl tl total job_id s o d chunk rest i parts st c Hw)
      as (st1 & Hw1 & ->).
    rewrite H1, bind_lift_ok.
    destruct (IH outs (S i) (parts ++ [out]) st1 (c ++ [chunk]) Hw1 H2)
      as (st' & E & Hw').
    exists st'. rewrite E, <- !app_assoc. rewrite <- app_assoc in Hw'. now split.
Qed.

Lemma chunks_raise env sl tl total job_id s o d chunk rest e pre :
  forall outs i parts st c,
  at_work st job_id s o c d -> translated env sl tl i pre outs ->
  translate env (i + length pre) chunk sl tl = Raise e ->
  exists st',
    translate_chunks env sl tl total (Some (on_progress job_id)) i
                     (pre ++ chunk :: rest) parts st
      = (Raise e, st') /\
    at_work st' job_id s o (c ++ pre ++ [chunk]) d.
Proof.
  induction pre as [|p pre IH]; intros outs i parts st c Hw Ht He.
  - simpl in He. rewrite Nat.add_0_r in He. simpl app.
    destruct (chunk_step env sl tl total job_id s o d chunk rest i parts st c Hw)
      as (st1 & Hw1 & ->).
    rewrite He, bind_lift_raise. now exists st1.
  - destruct outs as [|out outs]; [contradiction|]. destruct Ht as [H1 H2].
    simpl app.
    destruct (chunk_step env sl tl total job_id s o d p (pre ++ chunk :: rest)
                         i parts st c Hw) as (st1 & Hw1 & ->).
    rewrite H1, bind_lift_ok.
    assert (He' : translate env (S i + length pre) chunk sl tl = Raise e).
    { simpl length in He.
      now replace (S i + length pre)%nat with (i + S (length pre))%nat by lia. }
    destruct (IH outs (S i) (parts ++ [out]) st1 (c ++ [p]) Hw1 H2 He')
      as (st' & E & Hw').
    exists st'. split; [exact E|]. now rewrite <- app_assoc in Hw'.
Qed.

Lemma chunks_any env sl tl total job_id s o d chunks :
  forall i parts st c,
  at_work st job_id s o c d ->
  exists r st' c',
    translate_chunks env sl tl total (Some (on_progress job_id)) i chunks parts st
      = (r, st') /\
    at_work st' job_id s o c' d.
Proof.
  induction chunks as [|chunk rest IH]; intros i parts st c Hw.
  - exists (Ok parts), st, c. now split.
  - destruct (chunk_step env sl tl total job_id s o d chunk rest i parts st c Hw)
      as (st1 & Hw1 & ->).
    destruct (translate env i chunk sl tl) as [out|e|].
    + rewrite bind_lift_ok. apply (IH _ _ _ _ Hw1).
    + rewrite bind_lift_raise. eauto.
    + rewrite bind_lift_hang. eauto.
Qed.

(** ** The pipeline *)

Section PipelineOutcomes.
Variables (env : Env) (file_path : string) (sl : option string) (tl out : string)
          (job_id : string) (s o : value) (c : list string)
          (d : list (string * string)) (st : state).
Hypothesis working : at_work st job_id s o c d.

Local Abbreviation pipeline :=
  (translate_file_to_docx env file_path sl tl out (Some (on_progress job_id))).

Lemma pipeline_no_text e :
  Readers.extract_text (files env) file_path = Raise e \/
  (exists text, Readers.extract_text (files env) file_path = Ok text /\
                max_chars env = Raise e) ->
  pipeline st = (Raise e, st).
Proof.
  unfold translate_file_to_docx. intros [H|(text & H1 & H2)].
  - now rewrite H, bind_lift_raise.
  - now rewrite H1, bind_lift_ok, H2, bind_lift_raise.
Qed.

Lemma pipeline_translation_raises text m pre chunk rest outs e :
  Readers.extract_text (files env) file_path = Ok text ->
  max_chars env = Ok m ->
  _split_text text m = Some (pre ++ chunk :: rest) ->
  translated env sl tl 0 pre outs ->
  translate env (length pre) chunk sl tl = Raise e ->
  exists st', pipeline st = (Raise e, st') /\
              at_work st' job_id s o (c ++ pre ++ [chunk]) d.
Proof.
  intros H1 H2 H3 H4 H5. unfold translate_file_to_docx.
  rewrite H1, bind_lift_ok, H2, bind_lift_ok, H3.
  destruct (chunks_raise env sl tl (Nat.max 1 (length (pre ++ chunk :: rest)))
              job_id s o d chunk rest e pre outs 0%nat [] st c working H4 H5)
    as (st' & E & Hw).
  exists st'. split; [|exact Hw]. now rewrite (bind_raise _ _ _ _ _ E).
Qed.

Lemma pipeline_writes text m chunks outs :
  Readers.extract_text (files env) file_path = Ok text ->
  max_chars env = Ok m ->
  _split_text text m = Some chunks ->
  translated env sl tl 0 chunks outs ->
  exists st',
    pipeline st =
      match write_docx env (join newline outs) out with
      | Ok _ => (Ok tt, after_update job_id
                          [("progress", VFloat (py_max 0 (py_min 1 1)));
                           ("message", VStr "Done")] st')
      | Raise e => (Raise e, st')
      | Hang => (Hang, st')
      end /\
    at_work st' job_id s o (c ++ chunks) (d ++ [(join newline outs, out)]).
Proof.
  intros H1 H2 H3 H4. unfold translate_file_to_docx.
  rewrite H1, bind_lift_ok, H2, bind_lift_ok, H3.
  destruct (chunks_ok env sl tl (Nat.max 1 (length chunks)) job_id s o d chunks
              outs 0%nat [] st c working H4) as (st1 & E & Hw).
  rewrite (bind_ok _ _ _ _ _ E). simpl app.
  unfold report, on_progress. rewrite bind_update, bind_emit.
  eexists. split.
  - destruct (write_docx env (join newline outs) out) as [[]|e|];
      [rewrite bind_lift_ok|rewrite bind_lift_raise|rewrite bind_lift_hang]; reflexivity.
  - apply at_work_write, at_work_progress, Hw.
Qed.

Lemma pipeline_any :
  exists r st' c' d',
    pipeline st = (r, st') /\ at_work st' job_id s o c' d' /\
    (r = Ok tt -> exists full, d' = d ++ [(full, out)] /\
                               write_docx env full out = Ok tt).
Proof.
  unfold translate_file_to_docx.
  destruct (Readers.extract_text (files env) file_path) as [text|e|].
  2: { rewrite bind_lift_raise. exists (Raise e), st, c, d.
       split; [reflexivity|]. split; [exact working|discriminate]. }
  2: { rewrite bind_lift_hang. exists Hang, st, c, d.
       split; [reflexivity|]. split; [exact working|discriminate]. }
  rewrite bind_lift_ok.
  destruct (max_chars env) as [m|e|].
  2: { rewrite bind_lift_raise. exists (Raise e), st, c, d.
       split; [reflexivity|]. split; [exact working|discriminate]. }
  2: { rewrite bind_lift_hang. exists Hang, st, c, d.
       split; [reflexivity|]. split; [exact working|discriminate]. }
  rewrite bind_lift_ok.
  destruct (_split_text text m) as [chunks|].
  2: { exists Hang, st, c, d.
       split; [reflexivity|]. split; [exact working|discriminate]. }
  destruct (chunks_any env sl tl (Nat.max 1 (length chunks)) job_id s o d chunks
              0%nat [] st c working) as (r & st1 & c1 & E & Hw).
  destruct r as [parts|e|].
  2: { rewrite (bind_raise _ _ _ _ _ E). exists (Raise e), st1, c1, d.
       split; [reflexivity|]. split; [exact Hw|discriminate]. }
  2: { rewrite (bind_hang _ _ _ _ E). exists Hang, st1, c1, d.
       split; [reflexivity|]. split; [exact Hw|discriminate]. }
  rewrite (bind_ok _ _ _ _ _ E).
  unfold report, on_progress. rewrite bind_update, bind_emit.
  pose proof (at_work_write _ _ _ _ _ _ (join newline parts) out
                (at_work_progress _ _ _ _ _ _ (py_max 0 (py_min 1 (95 # 100)))
                   "Writing Word document" Hw)) as Hw2.
  destruct (write_docx env (join newline parts) out) as [[]|e|] eqn:W.
  - rewrite bind_lift_ok. eexists (Ok tt), _, c1, _. split; [reflexivity|].
    split; [apply at_work_progress; exact Hw2|]. intros _. eauto.
  - rewrite bind_lift_raise. eexists (Raise e), _, c1, _.
    split; [reflexivity|]. split; [exact Hw2|discriminate].
  - rewrite bind_lift_hang. eexists Hang, _, c1, _.
    split; [reflexivity|]. split; [exact Hw2|discriminate].
Qed.

End PipelineOutcomes.

(** ** The run of a job made by [create] *)

Lemma run_of_pipeline env job_id file_path target_lang source_lang s :
  let st0 := started job_id file_path target_lang source_lang s in
  let out := Jobs.output_path_for job_id (store st0) in
  run env job_id st0 =
    match translate_file_to_docx env file_path source_lang target_lang out
            (Some (on_progress job_id)) (after_update job_id starting st0) with
    | (Ok _, st2) => (Ok tt, after_update job_id (finishing out) st2)
    | (Raise e, st2) => (Ok tt, after_update job_id (failing e) st2)
    | (Hang, st2) => (Hang, st2)
    end.
Proof.
  intros st0 out.
  rewrite (run_unfold env job_id file_path target_lang source_lang s
           : run env job_id st0 = _).
  fold st0. unfold try_except, run_body, run_handler.
  rewrite bind_update, bind_output_path. fold starting.
  replace (Jobs.output_path_for job_id (store (after_update job_id starting st0)))
    with out
    by (unfold out, Jobs.output_path_for, after_update; cbn [store];
        now rewrite update_output_dir).
  unfold bind.
  destruct (translate_file_to_docx env file_path source_lang target_lang out
              (Some (on_progress job_id)) (after_update job_id starting st0))
    as [[[]|e|] st2]; reflexivity.
Qed.

Lemma at_work_starting job_id file_path target_lang source_lang s :
  at_work (after_update job_id starting
             (started job_id file_path target_lang source_lang s))
          job_id (VStr "running") VNone [] [].
Proof.
  exact (at_work_update _ _ _ _ _ _ starting
           (at_work_started job_id file_path target_lang source_lang s)).
Qed.

(** X16.  A failure before the first chunk, be it that the text cannot
    be extracted or that [CHUNK_CHARS] is not a number, ends the job of a
    created run in status ['error'] with the traceback as message and
    progress 1.0; nothing was handed to a translation function or to the
    writer, and the job has no output path. *)
Theorem early_failure_is_reported (env : Env) (job_id file_path target_lang : string)
        (source_lang : option string) (s : JobStore) (e : exn) :
  let r := run env job_id (started job_id file_path target_lang source_lang s) in
  Readers.extract_text (files env) file_path = Raise e \/
  (exists text, Readers.extract_text (files env) file_path = Ok text /\
                max_chars env = Raise e) ->
  r.1 = Ok tt /\
  translator_calls (log r.2) = [] /\ documents (log r.2) = [] /\
  exists job', Jobs.get job_id (store r.2) = Some job' /\
               view_of job' = final_view "error" (format_exc e) /\
               job' !! "output_path" = Some VNone.
Proof.
  intros r H. unfold r. rewrite run_of_pipeline.
  rewrite (pipeline_no_text env file_path source_lang target_lang _ job_id _ e H).
  cbn [fst snd]. split; [reflexivity|].
  apply (at_work_view _ job_id (VStr "running") VNone [] [] (failing e)
           "error" (format_exc e));
    [apply at_work_starting|reflexivity..].
Qed.

Lemma early_failure_is_reported_witness :
  let env := sample_env "text" None in
  let r := run env "j1" (started "j1" "uploads/a.docx" "ko" None sample_store) in
  r.1 = Ok tt /\
  translator_calls (log r.2) = [] /\ documents (log r.2) = [] /\
  exists job', Jobs.get "j1" (store r.2) = Some job' /\
               view_of job' = final_view "error" "PackageNotFoundError" /\
               job' !! "output_path" = Some VNone.
Proof.
  intros env.
  apply (early_failure_is_reported env "j1" "uploads/a.docx" "ko" None sample_store
           (Exception "PackageNotFoundError")).
  left. reflexivity.
Defined.

(** X17.  When the translation of a chunk fails, the run of a created
    job stops there: the chunks before it and the failing one were handed
    to the translation function, in order, and no later one; no document
    was handed to the writer; the job ends in status ['error'] with the
    traceback as message and progress 1.0, and has no output path. *)
Theorem translation_failure_is_reported (env : Env)
        (job_id file_path target_lang : string) (source_lang : option string)
        (s : JobStore) (text : string) (m : Z) (pre : list string) (chunk : string)
        (rest outs : list string) (e : exn) :
  let r := run env job_id (started job_id file_path target_lang source_lang s) in
  Readers.extract_text (files env) file_path = Ok text ->
  max_chars env = Ok m ->
  _split_text text m = Some (pre ++ chunk :: rest) ->
  translated env source_lang target_lang 0 pre outs ->
  translate env (length pre) chunk source_lang target_lang = Raise e ->
  r.1 = Ok tt /\
  translator_calls (log r.2) = pre ++ [chunk] /\ documents (log r.2) = [] /\
  exists job', Jobs.get job_id (store r.2) = Some job' /\
               view_of job' = final_view "error" (format_exc e) /\
               job' !! "output_path" = Some VNone.
Proof.
  intros r H1 H2 H3 H4 H5. unfold r. rewrite run_of_pipeline.
  destruct (pipeline_translation_raises env file_path source_lang target_lang
              (Jobs.output_path_for job_id
                 (store (started job_id file_path target_lang source_lang s)))
              job_id _ _ _ _ _
              (at_work_starting job_id file_path target_lang source_lang s)
              text m pre chunk rest outs e H1 H2 H3 H4 H5) as (st' & -> & Hw).
  cbn [fst snd]. split; [reflexivity|].
  apply (at_work_view _ job_id (VStr "running") VNone (pre ++ [chunk]) []
           (failing e) "error" (format_exc e)); [exact Hw|reflexivity..].
Qed.

Lemma translation_failure_is_reported_witness :
  let env := remote_env "abcdef" (Some 2) 1 (Ok tt) in
  let r := run env "j1" (started "j1" "uploads/a.txt" "ko" None sample_store) in
  r.1 = Ok tt /\
  translator_calls (log r.2) = ["ab"; "cd"] /\ documents (log r.2) = [] /\
  exists job', Jobs.get "j1" (store r.2) = Some job' /\
               view_of job' = final_view "error" "OpenAIError" /\
               job' !! "output_path" = Some VNone.
Proof.
  intros env.
  apply (translation_failure_is_reported env "j1" "uploads/a.txt" "ko" None
           sample_store "abcdef" 2 ["ab"] "cd" ["ef"] ["<ab>"]
           (Exception "OpenAIError")).
  - reflexivity.
  - reflexivity.
  - vm_compute. reflexivity.
  - split; [reflexivity|exact I].
  - reflexivity.
Defined.

(** The run of a created job whose chunks are all translated: it gets
    as far as the writer, and ends as the writer does. *)
Lemma run_reaches_writer env job_id file_path target_lang source_lang s text m
      chunks outs :
  let st0 := started job_id file_path target_lang source_lang s in
  let out := Jobs.output_path_for job_id (store st0) in
  Readers.extract_text (files env) file_path = Ok text ->
  max_chars env = Ok m ->
  _split_text text m = Some chunks ->
  translated env source_lang target_lang 0 chunks outs ->
  exists st',
    at_work st' job_id (VStr "running") VNone chunks [(join newline outs, out)] /\
    run env job_id st0 =
      match write_docx env (join newline outs) out with
      | Ok _ =>
          (Ok tt,
           after_update job_id (finishing out)
             (after_update job_id [("progress", VFloat (py_max 0 (py_min 1 1)));
                                   ("message", VStr "Done")] st'))
      | Raise e => (Ok tt, after_update job_id (failing e) st')
      | Hang => (Hang, st')
      end.
Proof.
  intros st0 out H1 H2 H3 H4.
  destruct (pipeline_writes env file_path source_lang target_lang out
              job_id _ _ _ _ _
              (at_work_starting job_id file_path target_lang source_lang s)
              text m chunks outs H1 H2 H3 H4) as (st' & E & Hw).
  exists st'. split; [exact Hw|].
  pose proof (run_of_pipeline env job_id file_path target_lang source_lang s) as R.
  cbv zeta in R. fold st0 in R, E. fold out in R. rewrite R, E.
  now destruct (write_docx env (join newline outs) out) as [[]|e|].
Qed.

(** X18.  When every chunk is translated and the writer succeeds, the
    run of a created job hands every chunk to the translation function
    once, in the order of the text, and hands the writer one document: the
    translations in that order, joined by single newlines, at the output
    path of the job.  The job ends in status ['done'] with message ['Done'],
    progress 1.0 and that path as its output path. *)
Theorem successful_run_document (env : Env) (job_id file_path target_lang : string)
        (source_lang : option string) (s : JobStore) (text : string) (m : Z)
        (chunks outs : list string) :
  let st0 := started job_id file_path target_lang source_lang s in
  let out := Jobs.output_path_for job_id (store st0) in
  let r := run env job_id st0 in
  Readers.extract_text (files env) file_path = Ok text ->
  max_chars env = Ok m ->
  _split_text text m = Some chunks ->
  translated env source_lang target_lang 0 chunks outs ->
  write_docx env (join newline outs) out = Ok tt ->
  r.1 = Ok tt /\
  translator_calls (log r.2) = chunks /\
  documents (log r.2) = [(join newline outs, out)] /\
  exists job', Jobs.get job_id (store r.2) = Some job' /\
               view_of job' = final_view "done" "Done" /\
               job' !! "output_path" = Some (VStr out).
Proof.
  intros st0 out r H1 H2 H3 H4 H5.
  destruct (run_reaches_writer env job_id file_path target_lang source_lang s
              text m chunks outs H1 H2 H3 H4) as (st' & Hw & E).
  fold st0 out in Hw, E. unfold r. rewrite E, H5. cbn [fst snd].
  split; [reflexivity|].
  apply (at_work_view _ job_id (VStr "running") VNone chunks
           [(join newline outs, out)] (finishing out) "done" "Done");
    [|reflexivity..].
  apply at_work_progress. exact Hw.
Qed.

Lemma successful_run_document_witness :
  let env := remote_env "abcdef" (Some 2) 3 (Ok tt) in
  let r := run env "j1" (started "j1" "uploads/a.txt" "ko" None sample_store) in
  r.1 = Ok tt /\
  translator_calls (log r.2) = ["ab"; "cd"; "ef"] /\
  documents (log r.2) =
    [(join newline ["<ab>"; "<cd>"; "<ef>"], "outputs/j1.docx")] /\
  exists job', Jobs.get "j1" (store r.2) = Some job' /\
               view_of job' = final_view "done" "Done" /\
               job' !! "output_path" = Some (VStr "outputs/j1.docx").
Proof.
  intros env.
  apply (successful_run_document env "j1" "uploads/a.txt" "ko" None
           sample_store "abcdef" 2 ["ab"; "cd"; "ef"] ["<ab>"; "<cd>"; "<ef>"]).
  - reflexivity.
  - reflexivity.
  - vm_compute. reflexivity.
  - repeat split.
  - reflexivity.
Defined.




(** X20.  When the writer fails, the run of a created job whose chunks
    were all translated ends in status ['error'] with the traceback as
    message and progress 1.0, not in ['done'], and the job has no output
    path. *)
Theorem writer_failure_is_reported (env : Env) (job_id file_path target_lang : string)
        (source_lang : option string) (s : JobStore) (text : string) (m : Z)
        (chunks outs : list string) (e : exn) :
  let st0 := started job_id file_path target_lang source_lang s in
  let out := Jobs.output_path_for job_id (store st0) in
  let r := run env job_id st0 in
  Readers.extract_text (files env) file_path = Ok text ->
  max_chars env = Ok m ->
  _split_text text m = Some chunks ->
  translated env source_lang target_lang 0 chunks outs ->
  write_docx env (join newline outs) out = Raise e ->
  r.1 = Ok tt /\
  translator_calls (log r.2) = chunks /\
  documents (log r.2) = [(join newline outs, out)] /\
  exists job', Jobs.get job_id (store r.2) = Some job' /\
               view_of job' = final_view "error" (format_exc e) /\
               job' !! "output_path" = Some VNone.
Proof.
  intros st0 out r H1 H2 H3 H4 H5.
  destruct (run_reaches_writer env job_id file_path target_lang source_lang s
              text m chunks outs H1 H2 H3 H4) as (st' & Hw & E).
  fold st0 out in Hw, E. unfold r. rewrite E, H5. cbn [fst snd].
  split; [reflexivity|].
  apply (at_work_view _ job_id (VStr "running") VNone chunks
           [(join newline outs, out)] (failing e) "error" (format_exc e));
    [exact Hw|reflexivity..].
Qed.

Lemma writer_failure_is_reported_witness :
  let env := remote_env "abcdef" (Some 3) 2 (Raise (Exception "PermissionError")) in
  let r := run env "j1" (started "j1" "uploads/a.txt" "ko" None sample_store) in
  r.1 = Ok tt /\
  translator_calls (log r.2) = ["abc"; "def"] /\
  documents (log r.2) = [(join newline ["<abc>"; "<def>"], "outputs/j1.docx")] /\
  exists job', Jobs.get "j1" (store r.2) = Some job' /\
               view_of job' = final_view "error" "PermissionError" /\
               job' !! "output_path" = Some VNone.
Proof.
  intros env.
  apply (writer_failure_is_reported env "j1" "uploads/a.txt" "ko" None
           sample_store "abcdef" 3 ["abc"; "def"] ["<abc>"; "<def>"]
           (Exception "PermissionError")).
  - reflexivity.
  - reflexivity.
  - vm_compute. reflexivity.
  - repeat split.
  - reflexivity.
Defined.

(** Where the run of a created job leaves it, however it ends. *)
Lemma run_any env job_id file_path target_lang source_lang s :
  let st0 := started job_id file_path target_lang source_lang s in
  let out := Jobs.output_path_for job_id (store st0) in
  let r := run env job_id st0 in
  exists status o c d,
    at_work r.2 job_id status o c d /\
    (status = VStr "running" \/ status = VStr "error" \/
     status = VStr "done" /\ o = VStr out /\ r.1 = Ok tt /\
     exists full, d = [(full, out)] /\ write_docx env full out = Ok tt).
Proof.
  intros st0 out r.
  pose proof (run_of_pipeline env job_id file_path target_lang source_lang s) as R.
  cbv zeta in R. fold st0 in R. fold out in R. fold r in R.
  destruct (pipeline_any env file_path source_lang target_lang out job_id _ _ _ _ _
              (at_work_starting job_id file_path target_lang source_lang s))
    as (res & st' & c' & d' & E & Hw & Hok).
  fold st0 in E. rewrite E in R. destruct res as [[]|e|]; rewrite R; cbn [fst snd].
  - destruct (Hok eq_refl) as (full & -> & W).
    exists (VStr "done"), (VStr out), c', [(full, out)].
    split; [exact (at_work_update _ _ _ _ _ _ (finishing out) Hw)|].
    right. right. repeat split. eauto.
  - exists (VStr "error"), VNone, c', d'.
    split; [exact (at_work_update _ _ _ _ _ _ (failing e) Hw)|]. auto.
  - exists (VStr "running"), VNone, c', d'. split; [exact Hw|]. auto.
Qed.

(** ** What polling sees of a run *)

Lemma run_trail env job_id file_path target_lang source_lang s :
  let n := chunk_count env file_path in
  let r := run env job_id (started job_id file_path target_lang source_lang s) in
  exists k tail fin,
    trail (log r.2) =
      starting_view ::
      (map (chunk_view running (Nat.max 1 n)) (seq 0 k) ++ tail) ++ fin /\
    (tail = [] \/ tail = [writing_view running] \/
     tail = [writing_view running; done_view running]) /\
    (r.1 = Ok tt /\ (fin = [final_view "done" "Done"] \/
                     exists tb, fin = [final_view "error" tb]) \/
     r.1 = Hang /\ fin = []).
Proof.
  intros n r.
  pose proof (run_of_pipeline env job_id file_path target_lang source_lang s) as R.
  cbv zeta in R. fold r in R.
  set (st0 := started job_id file_path target_lang source_lang s) in *.
  set (out := Jobs.output_path_for job_id (store st0)) in *.
  set (job0 := mk_job job_id "queued" 0 "Queued" file_path source_lang target_lang None).
  assert (Hj0 : job_at st0 job_id job0) by apply lookup_insert_eq.
  assert (Ht0 : tracked job0) by apply tracked_mk_job.
  assert (Hj1 : job_at (after_update job_id starting st0) job_id
                       (update_fields starting job0))
    by now apply job_at_after_update.
  assert (Ht1 : tracked (update_fields starting job0))
    by now apply tracked_update_fields.
  destruct (pipeline_run env file_path source_lang target_lang out job_id
              _ _ Hj1 Ht1)
    as (k & tail & st2 & res & job2 & E & Hj2 & Ht2 & _ & _ & Htr & _ & Htail & _).
  fold n in Htr, Htail.
  rewrite (status_starting job0 Ht0 : update_fields starting job0 !! "status" = _)
    in Htr, Htail.
  rewrite (trail_after_update _ _ _ _ Hj0) in Htr.
  rewrite (view_starting job0 Ht0 : view_of (update_fields starting job0) = _) in Htr.
  simpl in Htr.
  assert (Htail' : tail = [] \/ tail = [writing_view running] \/
                   tail = [writing_view running; done_view running]) by tauto.
  rewrite E in R. exists k, tail.
  destruct res as [[]|e|]; rewrite R; cbn [fst snd].
  - exists [final_view "done" "Done"]. split; [|split; [exact Htail'|left; auto]].
    rewrite (trail_after_update _ _ _ _ Hj2), Htr.
    rewrite (view_done job2 out Ht2 : view_of (update_fields (finishing out) job2) = _).
    reflexivity.
  - exists [final_view "error" (format_exc e)].
    split; [|split; [exact Htail'|left; eauto]].
    rewrite (trail_after_update _ _ _ _ Hj2), Htr.
    rewrite (view_error job2 (format_exc e) Ht2
             : view_of (update_fields (failing e) job2) = _).
    reflexivity.
  - exists []. split; [|split; [exact Htail'|right; auto]].
    now rewrite app_nil_r.
Qed.

(** X21.  The status of a created job over its run, as polling sees it:
    the run first sets ['running'], every later update but the last leaves
    ['running'], and a run that returns ends with exactly one final update,
    to ['done'] with message ['Done'] or to ['error'] with a traceback, in
    both cases with progress 1.0; nothing is updated after it.  Only a run
    that never returns leaves the job ['running']. *)
Theorem status_lifecycle (env : Env) (job_id file_path target_lang : string)
        (source_lang : option string) (s : JobStore) :
  let r := run env job_id (started job_id file_path target_lang source_lang s) in
  exists mid fin,
    trail (log r.2) = starting_view :: mid ++ fin /\
    Forall (fun v => has_status "running" v = true) mid /\
    (r.1 = Ok tt /\ (fin = [final_view "done" "Done"] \/
                     exists tb, fin = [final_view "error" tb]) \/
     r.1 = Hang /\ fin = []).
Proof.
  intros r.
  destruct (run_trail env job_id file_path target_lang source_lang s)
    as (k & tail & fin & Htr & Htail & Hfin).
  fold r in Htr, Hfin. eexists _, fin. split; [exact Htr|]. split; [|exact Hfin].
  apply Forall_app. split.
  - apply Forall_map, Forall_forall. intros i _. reflexivity.
  - destruct Htail as [->|[->| ->]]; repeat constructor.
Qed.

Lemma clamp_range p : (0 <= clamp p <= 1)%Q.
Proof.
  unfold clamp, py_max, py_min.
  case_qle 1%Q p;
    repeat match goal with
           | |- context [Qle_bool ?a ?b] => case_qle a b
           end; lra.
Qed.

Lemma progress_view_range status p msg : progress_in_range (progress_view status p msg).
Proof. exists (clamp p). split; [reflexivity|apply clamp_range]. Qed.

Lemma final_view_range status msg : progress_in_range (final_view status msg).
Proof. exists 1%Q. split; [reflexivity|lra]. Qed.

(** X22.  Every progress value that polling can see during and after
    the run of a created job is a fraction between 0 and 1, whatever the
    number of chunks and however the run ends. *)
Theorem progress_stays_in_range (env : Env) (job_id file_path target_lang : string)
        (source_lang : option string) (s : JobStore) :
  Forall progress_in_range
         (trail (log (run env job_id
                          (started job_id file_path target_lang source_lang s)).2)).
Proof.
  destruct (run_trail env job_id file_path target_lang source_lang s)
    as (k & tail & fin & -> & Htail & Hfin).
  constructor; [exists (1 # 100)%Q; split; [reflexivity|lra]|].
  apply Forall_app. split; [apply Forall_app; split|].
  - apply Forall_map, Forall_forall. intros i _. apply progress_view_range.
  - destruct Htail as [->|[->| ->]]; repeat constructor; apply progress_view_range.
  - destruct Hfin as [[_ [->|[tb ->]]]|[_ ->]]; repeat constructor;
      apply final_view_range.
Qed.

End RunMore.

(* ===================================================================== *)
(** * The job endpoints after a run                                       *)
(* ===================================================================== *)

Module EndpointsFacts.
Import Py Jobs Exec Pipeline Process Main Endpoints RunSpec MoreSpec.
Import PyFacts MainFacts MainMore RunMore.

Lemma components_flat n : forall cur,
  contains "/"%char n = false -> components cur n = [cur +:+ n].
Proof.
  induction n as [|d n IH]; intros cur H; simpl.
  - now rewrite str_app_nil_r.
  - simpl in H. apply orb_false_elim in H as [H1 H2]. rewrite H1.
    rewrite (IH _ H2), str_app_assoc, app_cons, app_nil_l. reflexivity.
Qed.

Lemma components_dir d n : forall cur,
  exists l, components cur (d +:+ "/" +:+ n) = l ++ components EmptyString n.
Proof.
  induction d as [|c d IH]; intros cur.
  - rewrite app_nil_l, app_cons, app_nil_l. simpl. now exists [cur].
  - rewrite app_cons. simpl. destruct (Ascii.eqb c "/"%char).
    + destruct (IH EmptyString) as [l ->]. now exists (cur :: l).
    + apply IH.
Qed.

Lemma path_name_join d n :
  contains "/"%char n = false -> n <> EmptyString -> n <> "." ->
  path_name (d +:+ "/" +:+ n) = n.
Proof.
  intros H1 H2 H3. unfold path_name.
  destruct (components_dir d n EmptyString) as [l ->].
  rewrite (components_flat n EmptyString H1), app_nil_l, List.filter_app.
  simpl List.filter.
  destruct (String.eqb_spec n EmptyString) as [E|_]; [contradiction|].
  destruct (String.eqb_spec n ".") as [E|_]; [contradiction|].
  simpl. apply last_last.
Qed.

Lemma docx_name d job_id :
  contains "/"%char job_id = false ->
  path_name (d +:+ "/" +:+ job_id +:+ ".docx") = job_id +:+ ".docx".
Proof.
  intros H. apply path_name_join.
  - now rewrite contains_app, H.
  - intros E. apply (f_equal String.length) in E. rewrite length_app in E.
    simpl in E. lia.
  - intros E. apply (f_equal String.length) in E. rewrite length_app in E.
    simpl in E. lia.
Qed.

Lemma tracked_not_empty (job : Job) : tracked job -> job <> ∅.
Proof. intros ([a Ha] & _) ->. rewrite lookup_empty in Ha. discriminate Ha. Qed.

(** [jobs_download] on a job that a run is working on or has left. *)
Lemma download_at_work exists_ st job_id status o c d :
  at_work st job_id status o c d ->
  (status = VStr "running" \/ status = VStr "error" ->
   jobs_download exists_ job_id (store st) = HTTPException 400 "job not finished") /\
  (forall out, status = VStr "done" -> o = VStr out ->
   jobs_download exists_ job_id (store st) =
     if exists_ out then Return {| path := out; filename := path_name out |}
     else HTTPException 404 "output file missing").
Proof.
  intros [(job & Hj & Ht & Hs & Ho) _]. unfold job_at in Hj.
  split.
  - intros E. unfold jobs_download, Jobs.get.
    rewrite Hj, (bool_decide_eq_false_2 _ (tracked_not_empty job Ht)), Hs.
    destruct E as [->| ->]; reflexivity.
  - intros out -> ->. unfold jobs_download, Jobs.get.
    rewrite Hj, (bool_decide_eq_false_2 _ (tracked_not_empty job Ht)), Hs, Ho.
    reflexivity.
Qed.

(** X23.  What a download request gets after the run of a created job,
    however the run went: either it is refused with 400 'job not
    finished', or the run returned after the writer wrote the one document
    of the job at its output path, and the request is answered with exactly
    that file under the name [<job_id>.docx], or with 404 'output file
    missing' if the file is no longer there.  It is for job ids without a
    path separator, such as the hexadecimal ids that [create] is given. *)
Theorem download_after_run (env : Env) (job_id file_path target_lang : string)
        (source_lang : option string) (s : JobStore) (exists_ : string -> bool) :
  let st0 := started job_id file_path target_lang source_lang s in
  let out := Jobs.output_path_for job_id (store st0) in
  let r := run env job_id st0 in
  contains "/"%char job_id = false ->
  jobs_download exists_ job_id (store r.2) = HTTPException 400 "job not finished" \/
  (exists full,
     r.1 = Ok tt /\ documents (log r.2) = [(full, out)] /\
     write_docx env full out = Ok tt) /\
  jobs_download exists_ job_id (store r.2) =
    if exists_ out
    then Return {| path := out; filename := job_id +:+ ".docx" |}
    else HTTPException 404 "output file missing".
Proof.
  intros st0 out r Hid.
  destruct (run_any env job_id file_path target_lang source_lang s)
    as (status & o & c & d & Hw & Hcases).
  fold st0 out r in Hw, Hcases.
  destruct (download_at_work exists_ _ _ _ _ _ _ Hw) as [H400 Hfile].
  destruct Hcases as [E|[E|(E1 & E2 & E3 & full & E4 & E5)]];
    [left; apply H400; auto..|right].
  split.
  - exists full. split; [exact E3|]. split; [|exact E5].
    destruct Hw as (_ & _ & Hd). now rewrite Hd.
  - assert (Hn : path_name out = job_id +:+ ".docx")
      by (unfold out, Jobs.output_path_for; now apply docx_name).
    now rewrite (Hfile out E1 E2), Hn.
Qed.

Lemma download_after_run_witness :
  let exists_ := fun p => String.eqb p "outputs/j1.docx" in
  let env := sample_env "abcdef" None in
  let r := run env "j1" (started "j1" "uploads/a.txt" "ko" None sample_store) in
  jobs_download exists_ "j1" (store r.2) = HTTPException 400 "job not finished" \/
  (exists full,
     r.1 = Ok tt /\ documents (log r.2) = [(full, "outputs/j1.docx")] /\
     write_docx env full "outputs/j1.docx" = Ok tt) /\
  jobs_download exists_ "j1" (store r.2) =
    if exists_ "outputs/j1.docx"
    then Return {| path := "outputs/j1.docx"; filename := "j1.docx" |}
    else HTTPException 404 "output file missing".
Proof.
  intros exists_ env.
  apply (download_after_run env "j1" "uploads/a.txt" "ko" None sample_store exists_).
  reflexivity.
Defined.

End EndpointsFacts.

(* ===================================================================== *)
(** * The document writer: one paragraph per line                         *)
(* ===================================================================== *)

Module WordFacts.
Import Py Translator Word MoreSpec PyFacts MainFacts.

Lemma splitlines_line line : forall cur rest,
  is_line line = true ->
  splitlines_from cur (line +:+ rest) = splitlines_from (cur +:+ line) rest.
Proof.
  induction line as [|c line IH]; intros cur rest H.
  - now rewrite app_nil_l, str_app_nil_r.
  - simpl in H. apply andb_prop in H as [H1 H2]. apply negb_true_iff in H1.
    rewrite app_cons. simpl splitlines_from. rewrite H1, (IH _ _ H2).
    now rewrite str_app_assoc, app_cons, app_nil_l.
Qed.

Lemma splitlines_newline cur rest :
  splitlines_from cur (newline +:+ rest) = cur :: splitlines_from EmptyString rest.
Proof. unfold newline. rewrite app_cons, app_nil_l. now destruct rest. Qed.

Lemma splitlines_terminated lines :
  Forall (fun l => is_line l = true) lines ->
  splitlines (concat (map (fun l => l +:+ newline) lines)) = lines.
Proof.
  unfold splitlines. induction 1 as [|l lines Hl _ IH]; [reflexivity|].
  simpl. fold (concat (map (fun l => l +:+ newline) lines)).
  rewrite str_app_assoc, (splitlines_line l _ _ Hl), app_nil_l, splitlines_newline.
  now rewrite IH.
Qed.

Lemma splitlines_joined lines :
  Forall (fun l => is_line l = true) lines ->
  last lines <> Some EmptyString ->
  splitlines (join newline lines) = lines.
Proof.
  unfold splitlines. induction 1 as [|l lines Hl _ IH]; intros Hlast; [reflexivity|].
  destruct lines as [|l2 lines].
  - simpl. rewrite <- (str_app_nil_r l) at 1.
    rewrite (splitlines_line l _ _ Hl), app_nil_l. simpl.
    destruct l; [now destruct Hlast|reflexivity].
  - change (join newline (l :: l2 :: lines))
      with (l +:+ newline +:+ join newline (l2 :: lines)).
    rewrite (splitlines_line l _ _ Hl), app_nil_l, splitlines_newline.
    rewrite IH; [reflexivity|exact Hlast].
Qed.

(** X24.  [write_docx] adds one paragraph per line and keeps empty lines
    as blank paragraphs: a text made of lines that each end with a newline
    is written as exactly those lines, in order, and so is a text made of
    lines separated by newlines when its last line is not empty.  A final
    newline adds no paragraph. *)
Theorem paragraphs_are_the_lines (lines : list string) :
  Forall (fun l => is_line l = true) lines ->
  paragraphs_written (concat (map (fun l => l +:+ newline) lines)) = lines /\
  (last lines <> Some EmptyString ->
   paragraphs_written (join newline lines) = lines).
Proof.
  intros H. split; [now apply splitlines_terminated|now apply splitlines_joined].
Qed.

Lemma paragraphs_are_the_lines_witness :
  let lines := ["title"; EmptyString; "body"] in
  paragraphs_written (concat (map (fun l => l +:+ newline) lines)) = lines /\
  (last lines <> Some EmptyString ->
   paragraphs_written (join newline lines) = lines).
Proof.
  intros lines. apply (paragraphs_are_the_lines lines).
  repeat constructor.
Defined.

End WordFacts.
